(** * Iterables and iterators: the notebooks' classes and the iteration protocol

    A shallow embedding of the classes defined in the notebooks
    [part-1.ipynb] (which holds the cells of parts 1 and 2: the [Squares]
    variants) and [part-3.ipynb] (the [Cities] variants and [CityIterator]).

    Python objects live in a store indexed by object identity ([id(x)]);
    a method is a state transformer that returns a value or raises.  The
    text written by [print] is part of the state, so that which methods a
    traversal called can be read off the output, as in the notebooks. *)

From stdpp Require Import gmap strings list.

Local Open Scope string_scope.
Local Open Scope list_scope.
Local Open Scope Z_scope.

(** ** Values, exceptions, objects *)

(** Object identity. *)
Abbreviation loc := positive.

(** The exceptions that the modelled code and the built-ins it uses raise.
    [ReferenceError] is the model's outcome for an identity that is not in
    the store; no state built by the constructors below produces it. *)
Inductive exn :=
| StopIteration
| IndexError
| TypeError
| AttributeError
| ValueError
| ReferenceError.

Inductive value :=
| VInt (z : Z)
| VStr (s : string)
| VRef (l : loc).

Inductive result (A : Type) :=
| Ret (a : A)
| Raise (e : exn).
Arguments Ret {A} a.
Arguments Raise {A} e.

(** The successive definitions of [class Squares(length)] in part-1.ipynb.
    They share the fields [length] and [i] and the body of the advancing
    method; they differ in the methods they define. *)
Inductive squares_def :=
| SqNextLen      (* line 246: next_, __len__ *)
| SqDunderLen    (* line 490: __next__, __len__ *)
| SqIterator     (* line 909: __iter__, __next__ *)
| SqIteratorTr.  (* line 1357: the same with print calls *)

(** The successive definitions of the data class [Cities] in part-3.ipynb,
    all with the single field [_cities]. *)
Inductive cities_def :=
| CitiesLen        (* line 177: __len__ *)
| CitiesIterable   (* lines 468 and 649: __len__, __iter__ *)
| CitiesSequence   (* line 862: __len__, __getitem__, __iter__ *)
| CitiesIndexOnly. (* not in the notebooks, see [cities_has_iter] *)

Inductive obj :=
| OSquaresInf (i : Z)                              (* part-1 line 103 *)
| OSquares (d : squares_def) (length : Z) (i : Z)
| OCitiesSelf (_cities : list string) (_index : Z) (* part-3 line 63 *)
| OCities (d : cities_def) (_cities : list string)
| OCityIterator (traced : bool) (_city_obj : loc) (_index : Z).

Definition sq_has_next_ (d : squares_def) : bool :=
  match d with SqNextLen => true | _ => false end.
Definition sq_has_next (d : squares_def) : bool :=
  match d with SqNextLen => false | _ => true end.
Definition sq_has_len (d : squares_def) : bool :=
  match d with SqNextLen | SqDunderLen => true | _ => false end.
Definition sq_has_iter (d : squares_def) : bool :=
  match d with SqIterator | SqIteratorTr => true | _ => false end.
Definition sq_traced (d : squares_def) : bool :=
  match d with SqIteratorTr => true | _ => false end.

(** Modelled from the spec: the row of [CitiesIndexOnly] in the two tables
    below.  The notebooks define no class that has [__getitem__] and lacks
    [__iter__]; [CitiesIndexOnly] is the "type exposing only positional
    access (no producer)" of the spec, with the [__len__] and [__getitem__]
    of the [Cities] of line 862.  The other rows are read off the class
    definitions. *)
Definition cities_has_iter (d : cities_def) : bool :=
  match d with CitiesIterable | CitiesSequence => true | _ => false end.
Definition cities_has_getitem (d : cities_def) : bool :=
  match d with CitiesSequence | CitiesIndexOnly => true | _ => false end.

(** ** State and the monad of methods *)

Record state := State { heap : gmap positive obj; stdout : list string }.

Definition M (A : Type) : Type := state → result A * state.

Definition ret {A} (a : A) : M A := λ σ, (Ret a, σ).
Definition raise {A} (e : exn) : M A := λ σ, (Raise e, σ).
Definition bind {A B} (m : M A) (k : A → M B) : M B :=
  λ σ, match m σ with
       | (Ret a, σ') => k a σ'
       | (Raise e, σ') => (Raise e, σ')
       end.

#[global] Instance M_ret : MRet M := @ret.
#[global] Instance M_bind : MBind M := λ A B k m, bind m k.

Definition print (s : string) : M unit :=
  λ σ, (Ret tt, State (heap σ) (stdout σ ++ [s])).
Definition print_if (b : bool) (s : string) : M unit :=
  if b then print s else ret tt.

Definition get_obj (l : loc) : M obj :=
  λ σ, match heap σ !! l with
       | Some o => (Ret o, σ)
       | None => (Raise ReferenceError, σ)
       end.
Definition set_obj (l : loc) (o : obj) : M unit :=
  λ σ, (Ret tt, State (<[l := o]> (heap σ)) (stdout σ)).
(** A constructor call creates an object with a new identity. *)
Definition alloc (o : obj) : M loc :=
  λ σ, let l := fresh (dom (heap σ)) in
       (Ret l, State (<[l := o]> (heap σ)) (stdout σ)).

(** Lift a pure outcome. *)
Definition lift {A} (r : result A) : M A := λ σ, (r, σ).

(** ** Built-in list operations *)

(** [l[s]] for a list [l] and an integer [s]: a negative [s] counts from
    the end, and a position outside [-len(l) .. len(l)-1] raises
    [IndexError]. *)
Definition list_getitem {A} (l : list A) (s : Z) : result A :=
  let n := Z.of_nat (length l) in
  let k := if s <? 0 then s + n else s in
  if (k <? 0) || (n <=? k) then Raise IndexError
  else match l !! Z.to_nat k with
       | Some x => Ret x
       | None => Raise IndexError
       end.

(** ** part-1.ipynb: Squares *)

(** Line 103: the unbounded [Squares]. *)
Definition SquaresInf___init__ : M loc := alloc (OSquaresInf 0).

Definition SquaresInf_next_ (self : loc) : M value :=
  o ← get_obj self;
  match o with
  | OSquaresInf i =>
      let result := i ^ 2 in
      set_obj self (OSquaresInf (i + 1));;
      ret (VInt result)
  | _ => raise AttributeError
  end.

(** Lines 246, 490, 909, 1357: [Squares(length)]. *)
Definition Squares___init__ (d : squares_def) (length : Z) : M loc :=
  alloc (OSquares d length 0).

(** The body of [next_] (line 251) and of [__next__] (lines 495, 917, 1366;
    the last one prints first). *)
Definition Squares___next__ (self : loc) : M value :=
  o ← get_obj self;
  match o with
  | OSquares d length i =>
      print_if (sq_traced d) "calling __next__";;
      if i >=? length then raise StopIteration
      else
        let result := i ^ 2 in
        set_obj self (OSquares d length (i + 1));;
        ret (VInt result)
  | _ => raise AttributeError
  end.

Definition Squares___len__ (self : loc) : M Z :=
  o ← get_obj self;
  match o with
  | OSquares _ length _ => ret length
  | _ => raise AttributeError
  end.

Definition Squares___iter__ (self : loc) : M loc :=
  o ← get_obj self;
  match o with
  | OSquares d _ _ =>
      print_if (sq_traced d) "calling __iter__";;
      ret self
  | _ => raise AttributeError
  end.

(** ** part-3.ipynb: Cities and CityIterator *)

(** Line 63: the [Cities] that is its own iterator. *)
Definition CitiesSelf___init__ : M loc :=
  alloc (OCitiesSelf ["Paris"; "Berlin"; "Rome"; "Madrid"; "London"] 0).

Definition CitiesSelf___iter__ (self : loc) : M loc :=
  o ← get_obj self;
  match o with
  | OCitiesSelf _ _ => ret self
  | _ => raise AttributeError
  end.

Definition CitiesSelf___next__ (self : loc) : M value :=
  o ← get_obj self;
  match o with
  | OCitiesSelf _cities _index =>
      if _index >=? Z.of_nat (length _cities) then raise StopIteration
      else
        item ← lift (list_getitem _cities _index);
        set_obj self (OCitiesSelf _cities (_index + 1));;
        ret (VStr item)
  | _ => raise AttributeError
  end.

(** Lines 177, 468, 649, 862: the data class [Cities]. *)
Definition Cities___init__ (d : cities_def) : M loc :=
  alloc (OCities d ["New York"; "Newark"; "New Delhi"; "Newcastle"]).

Definition Cities___len__ (self : loc) : M Z :=
  o ← get_obj self;
  match o with
  | OCities _ _cities => ret (Z.of_nat (length _cities))
  | _ => raise AttributeError
  end.

(** Line 869: [__getitem__] hands the position to the list. *)
Definition Cities___getitem__ (self : loc) (s : Z) : M value :=
  print "getting item...";;
  o ← get_obj self;
  match o with
  | OCities _ _cities =>
      item ← lift (list_getitem _cities s);
      ret (VStr item)
  | _ => raise AttributeError
  end.

(** [CityIterator(city_obj)], lines 198 (silent) and 341, 441, 660, 877
    (with print calls). *)
Definition CityIterator___init__ (traced : bool) (city_obj : loc) : M loc :=
  print_if traced "Calling CityIterator __init__";;
  alloc (OCityIterator traced city_obj 0).

Definition CityIterator___iter__ (self : loc) : M loc :=
  o ← get_obj self;
  match o with
  | OCityIterator traced _ _ =>
      print_if traced "Calling CitiyIterator instance __iter__";;
      ret self
  | _ => raise AttributeError
  end.

(** Lines 475, 656, 873: [Cities.__iter__] builds a new [CityIterator];
    the [CityIterator] in scope at those cells is the printing one. *)
Definition Cities___iter__ (self : loc) : M loc :=
  print "Calling Cities instance __iter__";;
  CityIterator___init__ true self.

(** ** Built-in functions *)

(** [len(x)]: calls [__len__]; a negative answer is a [ValueError]. *)
Definition py_len (x : loc) : M Z :=
  o ← get_obj x;
  match o with
  | OCities _ _ => Cities___len__ x
  | OSquares d _ _ =>
      if sq_has_len d then
        n ← Squares___len__ x;
        if n <? 0 then raise ValueError else ret n
      else raise TypeError
  | _ => raise TypeError
  end.

(** The attribute [x._cities]. *)
Definition get__cities (x : loc) : M (list string) :=
  o ← get_obj x;
  match o with
  | OCities _ _cities => ret _cities
  | OCitiesSelf _cities _ => ret _cities
  | _ => raise AttributeError
  end.

Definition CityIterator___next__ (self : loc) : M value :=
  o ← get_obj self;
  match o with
  | OCityIterator traced _city_obj _index =>
      print_if traced "Calling __next__";;
      n ← py_len _city_obj;
      if _index >=? n then raise StopIteration
      else
        _cities ← get__cities _city_obj;
        item ← lift (list_getitem _cities _index);
        set_obj self (OCityIterator traced _city_obj (_index + 1));;
        ret (VStr item)
  | _ => raise AttributeError
  end.

(** [next(x)]: calls [__next__] when the class of [x] defines it. *)
Definition py_next (x : loc) : M value :=
  o ← get_obj x;
  match o with
  | OSquares d _ _ =>
      if sq_has_next d then Squares___next__ x else raise TypeError
  | OCitiesSelf _ _ => CitiesSelf___next__ x
  | OCityIterator _ _ _ => CityIterator___next__ x
  | _ => raise TypeError
  end.

(** [x.next_()]. *)
Definition call_next_ (x : loc) : M value :=
  o ← get_obj x;
  match o with
  | OSquaresInf _ => SquaresInf_next_ x
  | OSquares d _ _ =>
      if sq_has_next_ d then Squares___next__ x else raise AttributeError
  | _ => raise AttributeError
  end.

(** Whether the class of an object defines [__next__], [__iter__],
    [__getitem__]. *)
Definition defines___next__ (o : obj) : bool :=
  match o with
  | OSquares d _ _ => sq_has_next d
  | OCitiesSelf _ _ => true
  | OCityIterator _ _ _ => true
  | _ => false
  end.

Definition defines___iter__ (o : obj) : bool :=
  match o with
  | OSquares d _ _ => sq_has_iter d
  | OCitiesSelf _ _ => true
  | OCities d _ => cities_has_iter d
  | OCityIterator _ _ _ => true
  | OSquaresInf _ => false
  end.

Definition defines___getitem__ (o : obj) : bool :=
  match o with
  | OCities d _ => cities_has_getitem d
  | _ => false
  end.

(** [iter(x)] for a class that defines [__iter__]: it calls the method.
    Without [__iter__] the notebooks show "TypeError: object is not
    iterable"; the positional fallback for a class with [__getitem__] only
    is kept in [traverse] below. *)
Definition py_iter (x : loc) : M loc :=
  o ← get_obj x;
  if defines___iter__ o then
    match o with
    | OSquares _ _ _ => Squares___iter__ x
    | OCitiesSelf _ _ => CitiesSelf___iter__ x
    | OCities _ _ => Cities___iter__ x
    | OCityIterator _ _ _ => CityIterator___iter__ x
    | OSquaresInf _ => raise TypeError
    end
  else raise TypeError.

(** [x[s]]. *)
Definition py_getitem (x : loc) (s : Z) : M value :=
  o ← get_obj x;
  if defines___getitem__ o then Cities___getitem__ x s
  else raise TypeError.

(** ** Traversal *)

(** The loop of part-1.ipynb line 1548, by which the notebook mimics what
    [for], [list], [sorted] and [enumerate] do with an iterator:
    [while True: try: item = next(it) ... except StopIteration: break].
    The items are collected in order; any other exception propagates.
    [None] means that the fuel ran out. *)
Fixpoint next_loop (fuel : nat) (it : loc) (acc : list value) (σ : state)
  : option (result (list value) * state) :=
  match fuel with
  | O => None
  | S fuel' =>
      match py_next it σ with
      | (Ret item, σ') => next_loop fuel' it (acc ++ [item]) σ'
      | (Raise StopIteration, σ') => Some (Ret acc, σ')
      | (Raise e, σ') => Some (Raise e, σ')
      end
  end.

(** Modelled from the spec: the fallback of the generic traversal for an
    object without [__iter__] is part of the language runtime, not of the
    notebooks (part-3.ipynb line 1018 only narrates it).  Section 4.3 step 4:
    call [at(0)], [at(1)], ... until a bounds error is signaled, then stop. *)
Fixpoint index_loop (fuel : nat) (x : loc) (pos : Z) (acc : list value)
  (σ : state) : option (result (list value) * state) :=
  match fuel with
  | O => None
  | S fuel' =>
      match py_getitem x pos σ with
      | (Ret item, σ') => index_loop fuel' x (pos + 1) (acc ++ [item]) σ'
      | (Raise IndexError, σ') => Some (Ret acc, σ')
      | (Raise e, σ') => Some (Raise e, σ')
      end
  end.

(** Part-1.ipynb lines 1545-1553: [sq_iterator = iter(sq)], then the
    loop. *)
Definition for_loop (fuel : nat) (x : loc) (σ : state)
  : option (result (list value) * state) :=
  match py_iter x σ with
  | (Ret it, σ') => next_loop fuel it [] σ'
  | (Raise e, σ') => Some (Raise e, σ')
  end.

(** Modelled from the spec: the choice that the language runtime makes
    between the two ways of traversing (section 4.3, steps 1 and 4): an
    object with [__iter__] is traversed through its producer, an object
    with [__getitem__] and no [__iter__] by position, and any other object
    is not iterable. *)
Definition traverse (fuel : nat) (x : loc) (σ : state)
  : option (result (list value) * state) :=
  match heap σ !! x with
  | None => Some (Raise ReferenceError, σ)
  | Some o =>
      if defines___iter__ o then for_loop fuel x σ
      else if defines___getitem__ o then index_loop fuel x 0 [] σ
      else Some (Raise TypeError, σ)
  end.

(** The outcomes of [k] successive calls of a method. *)
Fixpoint calls {A} (k : nat) (m : M A) (σ : state) : list (result A) * state :=
  match k with
  | O => ([], σ)
  | S k' =>
      let '(r, σ') := m σ in
      let '(rs, σ'') := calls k' m σ' in
      (r :: rs, σ'')
  end.

(** The outcomes of [k] successive calls of [next(p)]. *)
Definition nexts (k : nat) (p : loc) : state → list (result value) * state :=
  calls k (py_next p).

(** ** Operations of a program on the store *)

Inductive op :=
| OpNext (x : loc)                       (* next(x) *)
| OpNext_ (x : loc)                      (* x.next_() *)
| OpIter (x : loc)                       (* iter(x) *)
| OpLen (x : loc)                        (* len(x) *)
| OpGetitem (x : loc) (s : Z)            (* x[s] *)
| OpNewSquaresInf                        (* Squares() *)
| OpNewSquares (d : squares_def) (n : Z) (* Squares(n) *)
| OpNewCitiesSelf                        (* Cities(), line 63 *)
| OpNewCities (d : cities_def)           (* Cities() *)
| OpNewCityIterator (tr : bool) (c : loc). (* CityIterator(c) *)

Definition run_op (o : op) (σ : state) : state :=
  match o with
  | OpNext x => (py_next x σ).2
  | OpNext_ x => (call_next_ x σ).2
  | OpIter x => (py_iter x σ).2
  | OpLen x => (py_len x σ).2
  | OpGetitem x s => (py_getitem x s σ).2
  | OpNewSquaresInf => (SquaresInf___init__ σ).2
  | OpNewSquares d n => (Squares___init__ d n σ).2
  | OpNewCitiesSelf => (CitiesSelf___init__ σ).2
  | OpNewCities d => (Cities___init__ d σ).2
  | OpNewCityIterator tr c => (CityIterator___init__ tr c σ).2
  end.

Definition run_ops (os : list op) (σ : state) : state :=
  foldl (λ σ o, run_op o σ) σ os.

(** ** Cursors and limits *)

(** The cursor field of a producer. *)
Definition cursor (o : obj) : option Z :=
  match o with
  | OSquaresInf i => Some i
  | OSquares _ _ i => Some i
  | OCitiesSelf _ _index => Some _index
  | OCityIterator _ _ _index => Some _index
  | OCities _ _ => None
  end.

(** The object with its cursor moved by one. *)
Definition bump (o : obj) : obj :=
  match o with
  | OSquaresInf i => OSquaresInf (i + 1)
  | OSquares d n i => OSquares d n (i + 1)
  | OCitiesSelf l i => OCitiesSelf l (i + 1)
  | OCityIterator t c i => OCityIterator t c (i + 1)
  | OCities d l => OCities d l
  end.

(** Everything but the cursor. *)
Definition frame (o : obj) : obj :=
  match o with
  | OSquaresInf _ => OSquaresInf 0
  | OSquares d n _ => OSquares d n 0
  | OCitiesSelf l _ => OCitiesSelf l 0
  | OCityIterator t c _ => OCityIterator t c 0
  | OCities d l => OCities d l
  end.

(** The value of [len(c)] in a store, when [len(c)] returns. *)
Definition len_of (h : gmap positive obj) (c : loc) : option Z :=
  match h !! c with
  | Some (OCities _ l) => Some (Z.of_nat (length l))
  | Some (OSquares d n _) =>
      if sq_has_len d && (0 <=? n) then Some n else None
  | _ => None
  end.

(** The length that the cursor of a producer is compared with. *)
Definition limit (h : gmap positive obj) (p : loc) : option Z :=
  match h !! p with
  | Some (OSquares d n _) => if sq_has_next d then Some n else None
  | Some (OCitiesSelf l _) => Some (Z.of_nat (length l))
  | Some (OCityIterator _ c _) => len_of h c
  | _ => None
  end.

Definition cursor_at (h : gmap positive obj) (p : loc) : option Z :=
  h !! p ≫= cursor.

(** The text a traced method writes when [next] is called. *)
Definition next_trace (o : obj) : list string :=
  match o with
  | OSquares d _ _ =>
      if sq_traced d then ["calling __next__"] else []
  | OCityIterator true _ _ => ["Calling __next__"]
  | _ => []
  end.

Definition CityIterator_trace (traced : bool) : list string :=
  if traced then ["Calling __next__"] else [].

(** The store after [Cities()] of the given definition, started from
    nothing; the object has identity 1. *)
Definition empty_state : state := State ∅ [].
Definition after_Cities (d : cities_def) : state :=
  (Cities___init__ d empty_state).2.

(** A store that holds one [Cities] object whose [_cities] is [l]. *)
Definition store_Cities (d : cities_def) (l : list string) : state :=
  State {[1%positive := OCities d l]} [].

(** The store after [sq = Squares(3)] (line 909) and three [next(sq)]. *)
Definition after_three_squares : state :=
  (nexts 3 1%positive (Squares___init__ SqIterator 3 empty_state).2).2.

(** The store after [cities = Cities()] (line 649), [it = iter(cities)]
    and two [next(it)]: [cities] is object 1 and [it] is object 2. *)
Definition after_two_cities : state :=
  (nexts 2 2%positive (py_iter 1%positive (after_Cities CitiesIterable)).2).2.

(** The positional accessor as the spec words it: [x[s]] raises
    [IndexError] exactly when [s >= len(x)] or [s < 0]. *)
Definition out_of_range_iff_negative_or_beyond (σ : state) (x : loc) (s : Z)
  : Prop :=
  ∃ n, (py_len x σ).1 = Ret n ∧
       ((py_getitem x s σ).1 = Raise IndexError ↔ n ≤ s ∨ s < 0).

(** A store evolves: objects stay, keep their class and fields, and
    cursors do not move back. *)
Definition obj_le (o o' : obj) : Prop :=
  frame o = frame o' ∧
  match cursor o, cursor o' with
  | Some i, Some i' => i ≤ i'
  | None, None => True
  | _, _ => False
  end.

Definition heap_le (h h' : gmap positive obj) : Prop :=
  ∀ l o, h !! l = Some o → ∃ o', h' !! l = Some o' ∧ obj_le o o'.

(** ** More cells of part-1.ipynb *)

(** Lines 387-394: the loop over [next_],
    [while True: try: print(sq.next_()) except StopIteration: break],
    with the printed items collected in order. *)
Fixpoint next__loop (fuel : nat) (sq : loc) (acc : list value) (σ : state)
  : option (result (list value) * state) :=
  match fuel with
  | O => None
  | S fuel' =>
      match call_next_ sq σ with
      | (Ret item, σ') => next__loop fuel' sq (acc ++ [item]) σ'
      | (Raise StopIteration, σ') => Some (Ret acc, σ')
      | (Raise e, σ') => Some (Raise e, σ')
      end
  end.

(** The text that the [__iter__] of an iterator writes. *)
Definition iter_trace (o : obj) : list string :=
  match o with
  | OSquares d _ _ => if sq_traced d then ["calling __iter__"] else []
  | OCityIterator true _ _ => ["Calling CitiyIterator instance __iter__"]
  | _ => []
  end.

(** The store after [sq = Squares(3)] (line 909) and four [next(sq)]. *)
Definition after_three_squares_stop : state :=
  (nexts 4 1%positive (Squares___init__ SqIterator 3 empty_state).2).2.

(** How many values a producer has left: limit minus cursor. *)
Definition remaining (h : gmap positive obj) (p : loc) : nat :=
  match limit h p, cursor_at h p with
  | Some n, Some i => Z.to_nat (n - i)
  | _, _ => 0%nat
  end.

(** The squares of [i], [i+1], ..., [n-1] (none when [n <= i]). *)
Definition squares_from (i n : Z) : list Z :=
  (λ j, j ^ 2) <$> seqZ i (n - i).

(** Lines 686-710: [RandomNumbers].  The object is a record of its four
    attributes.  [random.randint] belongs to the standard library: it is
    given here by a source of raw numbers, one per draw, reduced to the
    requested range, and it raises [ValueError] for an empty range without
    drawing. *)
Module RandomNumbers.

Record t := Make {
  length : Z;
  range_min : Z;
  range_max : Z;
  num_requested : Z
}.

(** The object together with the number of draws made so far. *)
Record world := World { self : t; draws : nat }.

Definition randint (source : nat → Z) (a b : Z) (k : nat) : result Z :=
  if b <? a then Raise ValueError
  else Ret (a + source k `mod` (b - a + 1)).

(** [RandomNumbers(length, range_min=.., range_max=..)]. *)
Definition __init__ (length range_min range_max : Z) : t :=
  Make length range_min range_max 0.



Definition __next__ (source : nat → Z) (w : world) : result Z * world :=
  let o := self w in
  if num_requested o >=? length o then (Raise StopIteration, w)
  else
    let o' := Make (length o) (range_min o) (range_max o)
                   (num_requested o + 1) in
    match randint source (range_min o) (range_max o) (draws w) with
    | Ret v => (Ret v, World o' (S (draws w)))
    | Raise e => (Raise e, World o' (draws w))
    end.

(** The outcomes of [k] successive calls of [next(numbers)]. *)
Fixpoint nexts (source : nat → Z) (k : nat) (w : world)
  : list (result Z) * world :=
  match k with
  | O => ([], w)
  | S k' =>
      let '(r, w') := __next__ source w in
      let '(rs, w'') := nexts source k' w' in
      (r :: rs, w'')
  end.


End RandomNumbers.

Module RN := RandomNumbers.

(** * Proofs *)

(** ** Running the monad *)

Create HintDb py discriminated.

#[global] Hint Unfold py_next call_next_ py_iter py_getitem py_len
  CityIterator___next__ CityIterator___iter__ CityIterator___init__
  Cities___iter__ Cities___getitem__ Cities___len__ Cities___init__
  CitiesSelf___next__ CitiesSelf___iter__ CitiesSelf___init__
  Squares___next__ Squares___iter__ Squares___len__ Squares___init__
  SquaresInf_next_ SquaresInf___init__ get__cities : py.

#[global] Hint Unfold mbind M_bind bind mret M_ret ret raise lift print_if
  print get_obj set_obj alloc : py.

Ltac run := repeat autounfold with py in *; simpl in *.

(** Split on the next test of the code under evaluation. *)
Ltac split_code :=
  match goal with
  | H : ?h !! ?l = _ |- context [?h !! ?l] => rewrite H
  | |- context [match ?h !! ?l with _ => _ end] =>
      destruct (h !! l) as [[]|] eqn:?
  | |- context [match list_getitem ?l ?s with _ => _ end] =>
      destruct (list_getitem l s) eqn:?
  | |- context [if sq_has_next ?d then _ else _] => destruct d
  | |- context [if sq_has_next_ ?d then _ else _] => destruct d
  | |- context [if sq_has_len ?d then _ else _] => destruct d
  | |- context [if sq_has_iter ?d then _ else _] => destruct d
  | |- context [if sq_traced ?d then _ else _] => destruct d
  | |- context [if cities_has_iter ?d then _ else _] => destruct d
  | |- context [if cities_has_getitem ?d then _ else _] => destruct d
  | |- context [if ?b then _ else _] => destruct b eqn:?
  end; simpl in *; simplify_eq.

Ltac run_all := run; repeat split_code.

Lemma state_eta σ : State (heap σ) (stdout σ) = σ.
Proof. by destruct σ. Qed.

(** ** Python list indexing *)

Lemma list_getitem_nat {A} (l : list A) (k : nat) x :
  l !! k = Some x → list_getitem l (Z.of_nat k) = Ret x.
Proof.
  intros Hk. pose proof (lookup_lt_Some _ _ _ Hk) as Hlt.
  unfold list_getitem.
  destruct (Z.ltb_spec (Z.of_nat k) 0) as [?|_]; [lia|].
  destruct (Z.ltb_spec (Z.of_nat k) 0) as [?|_]; [lia|].
  destruct (Z.leb_spec (Z.of_nat (length l)) (Z.of_nat k)) as [?|_]; [lia|].
  simpl. by rewrite Nat2Z.id, Hk.
Qed.

Lemma list_getitem_in_range {A} (l : list A) (s : Z) :
  0 ≤ s < Z.of_nat (length l) →
  ∃ x, l !! Z.to_nat s = Some x ∧ list_getitem l s = Ret x.
Proof.
  intros Hs. destruct (lookup_lt_is_Some_2 l (Z.to_nat s)) as [x Hx]; [lia|].
  exists x. split; [done|].
  rewrite <- (Z2Nat.id s) by lia. by apply list_getitem_nat.
Qed.

Lemma list_getitem_negative {A} (l : list A) (s : Z) :
  - Z.of_nat (length l) ≤ s < 0 →
  list_getitem l s = list_getitem l (s + Z.of_nat (length l)).
Proof.
  intros Hs. unfold list_getitem.
  destruct (Z.ltb_spec s 0) as [_|?]; [|lia].
  destruct (Z.ltb_spec (s + Z.of_nat (length l)) 0) as [?|_]; [lia|].
  destruct (Z.ltb_spec (s + Z.of_nat (length l)) 0) as [?|_]; [lia|].
  done.
Qed.

Lemma list_getitem_IndexError {A} (l : list A) (s : Z) :
  list_getitem l s = Raise IndexError ↔
  Z.of_nat (length l) ≤ s ∨ s < - Z.of_nat (length l).
Proof.
  unfold list_getitem.
  destruct (Z.ltb_spec s 0) as [Hneg|Hpos].
  - destruct (Z.ltb_spec (s + Z.of_nat (length l)) 0) as [?|?]; simpl.
    + split; [lia|done].
    + destruct (Z.leb_spec (Z.of_nat (length l)) (s + Z.of_nat (length l)))
        as [?|?]; [lia|].
      destruct (lookup_lt_is_Some_2 l (Z.to_nat (s + Z.of_nat (length l))))
        as [x ->]; [lia|].
      split; [done|lia].
  - destruct (Z.ltb_spec s 0) as [?|_]; [lia|]. simpl.
    destruct (Z.leb_spec (Z.of_nat (length l)) s) as [?|?].
    + split; [lia|done].
    + destruct (lookup_lt_is_Some_2 l (Z.to_nat s)) as [x ->]; [lia|].
      split; [done|lia].
Qed.

Lemma list_getitem_raises {A} (l : list A) (s : Z) e :
  list_getitem l s = Raise e → e = IndexError.
Proof.
  unfold list_getitem. repeat case_match; congruence.
Qed.

(** ** What one call of [next] does *)

Lemma py_next_stdout x σ :
  stdout (py_next x σ).2 =
  stdout σ ++ from_option next_trace [] (heap σ !! x).
Proof.
  run_all; rewrite ?app_nil_r; done.
Qed.

Lemma py_next_Raise x σ e :
  (py_next x σ).1 = Raise e → heap (py_next x σ).2 = heap σ.
Proof.
  run_all; done.
Qed.

Lemma py_next_Ret x σ v :
  (py_next x σ).1 = Ret v →
  ∃ o i, heap σ !! x = Some o ∧ cursor o = Some i ∧
         heap (py_next x σ).2 = <[x := bump o]> (heap σ).
Proof.
  run_all; intros; simplify_eq; eauto.
Qed.


(** The outcome of [next] depends on the store only, not on the output. *)
Lemma py_next_outcome_heap x σ1 σ2 :
  heap σ1 = heap σ2 → (py_next x σ1).1 = (py_next x σ2).1.
Proof.
  destruct σ1 as [h1 o1], σ2 as [h2 o2]; simpl; intros ->.
  run. repeat split_code; done.
Qed.

(** [next] raises [StopIteration] exactly when the cursor has reached the
    limit. *)
Lemma py_next_StopIteration x σ :
  (py_next x σ).1 = Raise StopIteration ↔
  ∃ n i, limit (heap σ) x = Some n ∧ cursor_at (heap σ) x = Some i ∧ n ≤ i.
Proof.
  unfold limit, len_of, cursor_at. run.
  repeat split_code; simpl;
    try (split; [intros; simplify_eq | intros (?&?&?&?&?); simplify_eq]);
    try done;
    try (match goal with H : list_getitem _ _ = Raise _ |- _ =>
           apply list_getitem_raises in H end; simplify_eq);
    try (eexists _, _; split_and!; [done..|lia]);
    try lia.
Qed.

(** ** A [CityIterator] over a [Cities] object *)

Lemma CityIterator_ne σ p c tr c' i d l :
  heap σ !! p = Some (OCityIterator tr c' i) →
  heap σ !! c = Some (OCities d l) → p ≠ c.
Proof. intros Hp Hc ->. congruence. Qed.

Lemma CityIterator_next_item σ p tr c d l (k : nat) x :
  heap σ !! p = Some (OCityIterator tr c (Z.of_nat k)) →
  heap σ !! c = Some (OCities d l) →
  l !! k = Some x →
  py_next p σ =
    (Ret (VStr x),
     State (<[p := OCityIterator tr c (Z.of_nat k + 1)]> (heap σ))
           (stdout σ ++ CityIterator_trace tr)).
Proof.
  intros Hp Hc Hk. pose proof (lookup_lt_Some _ _ _ Hk) as Hlt.
  pose proof (list_getitem_nat _ _ _ Hk) as Hget.
  run. rewrite Hp. simpl. rewrite Hp. simpl.
  destruct tr; simpl; rewrite Hc; simpl; rewrite Hc; simpl;
    (destruct (Z.geb_spec (Z.of_nat k) (Z.of_nat (length l))); [lia|]);
    simpl; rewrite Hc; simpl; rewrite Hget; simpl;
    rewrite ?app_nil_r; done.
Qed.

Lemma CityIterator_next_exhausted σ p tr c d l i :
  heap σ !! p = Some (OCityIterator tr c i) →
  heap σ !! c = Some (OCities d l) →
  Z.of_nat (length l) ≤ i →
  py_next p σ =
    (Raise StopIteration,
     State (heap σ) (stdout σ ++ CityIterator_trace tr)).
Proof.
  intros Hp Hc Hi.
  run. rewrite Hp. simpl. rewrite Hp. simpl.
  destruct tr; simpl; rewrite Hc; simpl; rewrite Hc; simpl;
    (destruct (Z.geb_spec i (Z.of_nat (length l))); [|lia]);
    rewrite ?app_nil_r, ?state_eta; done.
Qed.

Lemma calls_S k p σ :
  nexts (S k) p σ =
    (let '(r, σ') := py_next p σ in
     let '(rs, σ'') := nexts k p σ' in (r :: rs, σ'')).
Proof. done. Qed.

(** From position [k], the next calls yield the rest of the list and then
    [StopIteration]; the cursor ends at the length. *)
Lemma nexts_CityIterator tr c d l (r : nat) :
  ∀ σ p (k : nat),
    heap σ !! p = Some (OCityIterator tr c (Z.of_nat k)) →
    heap σ !! c = Some (OCities d l) →
    (k + r)%nat = length l →
    (nexts (S r) p σ).1 =
      ((λ s, Ret (VStr s)) <$> drop k l) ++ [Raise StopIteration] ∧
    heap (nexts (S r) p σ).2 =
      <[p := OCityIterator tr c (Z.of_nat (length l))]> (heap σ).
Proof.
  induction r as [|r IH]; intros σ p k Hp Hc Hlen.
  - unfold nexts. cbn [calls].
    rewrite (CityIterator_next_exhausted _ _ _ _ _ _ _ Hp Hc) by lia.
    simpl. rewrite drop_ge by lia. split; [done|].
    rewrite insert_id; [done|]. rewrite Hp. do 3 f_equal. lia.
  - destruct (lookup_lt_is_Some_2 l k) as [x Hx]; [lia|].
    pose proof (CityIterator_ne _ _ _ _ _ _ _ _ Hp Hc) as Hne.
    rewrite (calls_S (S r)).
    rewrite (CityIterator_next_item _ _ _ _ _ _ _ _ Hp Hc Hx).
    set (σ' := State _ _).
    destruct (IH σ' p (S k)) as [IH1 IH2].
    + unfold σ'; simpl. rewrite lookup_insert_eq. do 2 f_equal. lia.
    + unfold σ'; simpl. by rewrite lookup_insert_ne.
    + lia.
    + destruct (nexts (S r) p σ') as [rs σ'']. simpl in *. subst rs.
      split.
      * rewrite (drop_S _ _ _ Hx). done.
      * rewrite IH2. unfold σ'; simpl. by rewrite insert_insert_eq.
Qed.

Lemma CityIterator_init_spec tr c σ :
  CityIterator___init__ tr c σ =
    (Ret (fresh (dom (heap σ))),
     State (<[fresh (dom (heap σ)) := OCityIterator tr c 0]> (heap σ))
           (stdout σ ++ if tr then ["Calling CityIterator __init__"] else [])).
Proof.
  run. destruct tr; simpl; rewrite ?app_nil_r; done.
Qed.

Lemma fresh_heap_None (h : gmap positive obj) : h !! fresh (dom h) = None.
Proof. apply not_elem_of_dom, is_fresh. Qed.

Lemma Cities_iter_spec σ c d l :
  heap σ !! c = Some (OCities d l) → cities_has_iter d = true →
  py_iter c σ =
    (Ret (fresh (dom (heap σ))),
     State (<[fresh (dom (heap σ)) := OCityIterator true c 0]> (heap σ))
           (stdout σ ++ ["Calling Cities instance __iter__";
                         "Calling CityIterator __init__"])).
Proof.
  intros Hc Hd. run. rewrite Hc. simpl. rewrite Hd. simpl.
  by rewrite <- app_assoc.
Qed.

Lemma py_len_Cities σ c d l :
  heap σ !! c = Some (OCities d l) →
  py_len c σ = (Ret (Z.of_nat (length l)), σ).
Proof. intros Hc. run. rewrite Hc. simpl. by rewrite Hc. Qed.

(** ** The unbounded [Squares] *)

Lemma SquaresInf_next__spec σ p i :
  heap σ !! p = Some (OSquaresInf i) →
  SquaresInf_next_ p σ =
    (Ret (VInt (i ^ 2)),
     State (<[p := OSquaresInf (i + 1)]> (heap σ)) (stdout σ)).
Proof. intros Hp. run. by rewrite Hp. Qed.

Lemma calls_SquaresInf p (k : nat) :
  ∀ σ i,
    heap σ !! p = Some (OSquaresInf i) →
    (calls k (SquaresInf_next_ p) σ).1 =
      (λ j, Ret (VInt (j ^ 2))) <$> seqZ i (Z.of_nat k).
Proof.
  induction k as [|k IH]; intros σ i Hp; [done|].
  cbn [calls]. rewrite (SquaresInf_next__spec _ _ _ Hp).
  set (σ' := State _ _).
  specialize (IH σ' (i + 1)).
  destruct (calls k (SquaresInf_next_ p) σ') as [rs σ'']. simpl in *.
  rewrite IH by (unfold σ'; simpl; apply lookup_insert_eq).
  rewrite Nat2Z.inj_succ, (seqZ_cons i) by lia. simpl.
  do 3 f_equal; lia.
Qed.

(** ** Stores only evolve *)

Lemma obj_le_refl o : obj_le o o.
Proof. split; [done|]. destruct (cursor o); [lia|done]. Qed.

Lemma obj_le_trans o1 o2 o3 : obj_le o1 o2 → obj_le o2 o3 → obj_le o1 o3.
Proof.
  intros [Hf1 Hc1] [Hf2 Hc2]. split; [congruence|].
  destruct (cursor o1), (cursor o2), (cursor o3); try done. lia.
Qed.

Lemma frame_bump o : frame (bump o) = frame o.
Proof. by destruct o. Qed.

Lemma obj_le_bump o : obj_le o (bump o).
Proof. destruct o; split; simpl; try done; lia. Qed.

Lemma obj_le_cursor o o' i :
  obj_le o o' → cursor o = Some i → ∃ i', cursor o' = Some i' ∧ i ≤ i'.
Proof.
  intros [_ Hc] Hi. rewrite Hi in Hc.
  destruct (cursor o') as [i'|]; [eauto|done].
Qed.

Lemma heap_le_refl h : heap_le h h.
Proof. intros l o Hl. eauto using obj_le_refl. Qed.

Lemma heap_le_trans h1 h2 h3 : heap_le h1 h2 → heap_le h2 h3 → heap_le h1 h3.
Proof.
  intros H12 H23 l o Hl.
  destruct (H12 _ _ Hl) as (o2 & Hl2 & Hle2).
  destruct (H23 _ _ Hl2) as (o3 & Hl3 & Hle3).
  eauto using obj_le_trans.
Qed.

Lemma heap_le_insert h x o o' :
  h !! x = Some o → obj_le o o' → heap_le h (<[x := o']> h).
Proof.
  intros Hx Hle l o1 Hl. destruct (decide (x = l)) as [->|Hne].
  - rewrite lookup_insert_eq. simplify_eq. eauto.
  - rewrite lookup_insert_ne by done. eauto using obj_le_refl.
Qed.

Lemma heap_le_alloc h o : heap_le h (<[fresh (dom h) := o]> h).
Proof.
  intros l o1 Hl. rewrite lookup_insert_ne; [eauto using obj_le_refl|].
  intros <-. by rewrite fresh_heap_None in Hl.
Qed.

#[global] Hint Resolve heap_le_refl heap_le_alloc obj_le_bump obj_le_refl : py.

Lemma py_next_heap_le x σ : heap_le (heap σ) (heap (py_next x σ).2).
Proof.
  destruct (py_next x σ).1 as [v|e] eqn:Hr.
  - destruct (py_next_Ret _ _ _ Hr) as (o & i & Hx & _ & ->).
    eapply heap_le_insert; eauto with py.
  - rewrite (py_next_Raise _ _ _ Hr). auto with py.
Qed.

Ltac solve_heap_le :=
  first [ apply heap_le_refl
        | apply heap_le_alloc
        | eapply heap_le_insert; [eassumption|]; split; simpl; [done|lia] ].

Lemma run_op_heap_le o σ : heap_le (heap σ) (heap (run_op o σ)).
Proof.
  destruct o; simpl; try apply py_next_heap_le;
    run_all; solve_heap_le.
Qed.

Lemma run_ops_heap_le os : ∀ σ, heap_le (heap σ) (heap (run_ops os σ)).
Proof.
  induction os as [|o os IH]; intros σ; simpl; [apply heap_le_refl|].
  eapply heap_le_trans; [apply run_op_heap_le|apply IH].
Qed.

Lemma heap_le_OCities h h' c d l :
  heap_le h h' → h !! c = Some (OCities d l) → h' !! c = Some (OCities d l).
Proof.
  intros Hle Hc. destruct (Hle _ _ Hc) as (o' & -> & Hf & _).
  destruct o'; simpl in *; by simplify_eq.
Qed.

Lemma heap_le_len_of h h' c n :
  heap_le h h' → len_of h c = Some n → len_of h' c = Some n.
Proof.
  unfold len_of. intros Hle Hn.
  destruct (h !! c) as [o|] eqn:Hc; [|done].
  destruct (Hle _ _ Hc) as (o' & -> & Hf & _).
  destruct o, o'; simpl in *; by simplify_eq.
Qed.

Lemma heap_le_limit h h' p n :
  heap_le h h' → limit h p = Some n → limit h' p = Some n.
Proof.
  unfold limit. intros Hle Hn.
  destruct (h !! p) as [o|] eqn:Hp; [|done].
  destruct (Hle _ _ Hp) as (o' & -> & Hf & _).
  destruct o, o'; simpl in *; simplify_eq; try done.
  eauto using heap_le_len_of.
Qed.

Lemma heap_le_cursor_at h h' p i :
  heap_le h h' → cursor_at h p = Some i →
  ∃ i', cursor_at h' p = Some i' ∧ i ≤ i'.
Proof.
  unfold cursor_at. intros Hle Hi.
  destruct (h !! p) as [o|] eqn:Hp; [|done].
  destruct (Hle _ _ Hp) as (o' & -> & Ho). simpl in *.
  eauto using obj_le_cursor.
Qed.

(** Exhaustion is stable under every evolution of the store. *)
Lemma exhausted_stable σ σ' p :
  heap_le (heap σ) (heap σ') →
  (py_next p σ).1 = Raise StopIteration →
  (py_next p σ').1 = Raise StopIteration.
Proof.
  intros Hle. rewrite !py_next_StopIteration.
  intros (n & i & Hn & Hi & Hni).
  destruct (heap_le_cursor_at _ _ _ _ Hle Hi) as (i' & Hi' & Hii').
  exists n, i'. split_and!; [eauto using heap_le_limit|done|lia].
Qed.

(** ** Traversals *)

Lemma next_loop_CityIterator tr c d l (r : nat) :
  ∀ σ p (k : nat) acc fuel,
    heap σ !! p = Some (OCityIterator tr c (Z.of_nat k)) →
    heap σ !! c = Some (OCities d l) →
    (k + r)%nat = length l →
    (r < fuel)%nat →
    next_loop fuel p acc σ =
      Some (Ret (acc ++ (VStr <$> drop k l)),
            State (<[p := OCityIterator tr c (Z.of_nat (length l))]> (heap σ))
                  (stdout σ ++
                   concat (replicate (S r) (CityIterator_trace tr)))).
Proof.
  induction r as [|r IH]; intros σ p k acc fuel Hp Hc Hlen Hfuel;
    (destruct fuel as [|fuel]; [lia|]); cbn [next_loop].
  - rewrite (CityIterator_next_exhausted _ _ _ _ _ _ _ Hp Hc) by lia.
    rewrite drop_ge by lia. simpl. rewrite !app_nil_r.
    rewrite insert_id; [done|]. rewrite Hp. do 3 f_equal. lia.
  - destruct (lookup_lt_is_Some_2 l k) as [x Hx]; [lia|].
    pose proof (CityIterator_ne _ _ _ _ _ _ _ _ Hp Hc) as Hne.
    rewrite (CityIterator_next_item _ _ _ _ _ _ _ _ Hp Hc Hx).
    rewrite (IH _ p (S k)); simpl.
    + rewrite insert_insert_eq, (drop_S _ _ _ Hx), <- !app_assoc. done.
    + rewrite lookup_insert_eq. do 2 f_equal. lia.
    + by rewrite lookup_insert_ne.
    + lia.
    + lia.
Qed.

Lemma concat_replicate_singleton {A} (n : nat) (x : A) :
  concat (replicate n [x]) = replicate n x.
Proof. induction n as [|n IH]; simpl; [done|]. by rewrite IH. Qed.

Lemma traverse_Cities σ c d l fuel :
  heap σ !! c = Some (OCities d l) →
  cities_has_iter d = true →
  (length l < fuel)%nat →
  traverse fuel c σ =
    Some (Ret (VStr <$> l),
          State (<[fresh (dom (heap σ)) :=
                     OCityIterator true c (Z.of_nat (length l))]> (heap σ))
                (stdout σ ++
                 ["Calling Cities instance __iter__";
                  "Calling CityIterator __init__"] ++
                 replicate (S (length l)) "Calling __next__")).
Proof.
  intros Hc Hd Hfuel. unfold traverse, for_loop. rewrite Hc. simpl.
  rewrite Hd, (Cities_iter_spec _ _ _ _ Hc Hd).
  pose proof (fresh_heap_None (heap σ)) as Hfresh.
  rewrite (next_loop_CityIterator true c d l (length l) _ _ 0%nat); simpl.
  - rewrite insert_insert_eq, <- !app_assoc. do 4 f_equal. simpl.
    by rewrite concat_replicate_singleton.
  - by rewrite lookup_insert_eq.
  - rewrite lookup_insert_ne; [done|]. intros Heq. congruence.
  - done.
  - done.
Qed.

(** Traversing an exhausted [CityIterator] gives nothing. *)
Lemma traverse_exhausted_CityIterator σ p tr c d l fuel :
  heap σ !! p = Some (OCityIterator tr c (Z.of_nat (length l))) →
  heap σ !! c = Some (OCities d l) →
  (0 < fuel)%nat →
  ∃ σ', traverse fuel p σ = Some (Ret [], σ') ∧ heap σ' = heap σ.
Proof.
  intros Hp Hc Hfuel. unfold traverse, for_loop. rewrite Hp. simpl.
  assert (py_iter p σ =
    (Ret p, State (heap σ) (stdout σ ++
       if tr then ["Calling CitiyIterator instance __iter__"] else [])))
    as ->.
  { run. rewrite Hp. simpl. rewrite Hp. simpl.
    destruct tr; simpl; rewrite ?app_nil_r, ?state_eta; done. }
  destruct fuel as [|fuel]; [lia|]. cbn [next_loop].
  erewrite CityIterator_next_exhausted; [| exact Hp | exact Hc | simpl; lia].
  simpl. eauto.
Qed.

(** The positional fallback over a [Cities] object. *)
Lemma Cities_getitem_spec σ c d l s :
  heap σ !! c = Some (OCities d l) →
  cities_has_getitem d = true →
  py_getitem c s σ =
    (match list_getitem l s with
     | Ret x => Ret (VStr x)
     | Raise e => Raise e
     end,
     State (heap σ) (stdout σ ++ ["getting item..."])).
Proof.
  intros Hc Hd. run. rewrite Hc. simpl. rewrite Hd. rewrite Hc. simpl.
  by destruct (list_getitem l s).
Qed.

Lemma index_loop_Cities c d l (r : nat) :
  ∀ σ (k : nat) acc fuel,
    heap σ !! c = Some (OCities d l) →
    cities_has_getitem d = true →
    (k + r)%nat = length l →
    (r < fuel)%nat →
    index_loop fuel c (Z.of_nat k) acc σ =
      Some (Ret (acc ++ (VStr <$> drop k l)),
            State (heap σ)
                  (stdout σ ++ replicate (S r) "getting item...")).
Proof.
  induction r as [|r IH]; intros σ k acc fuel Hc Hd Hlen Hfuel;
    (destruct fuel as [|fuel]; [lia|]); cbn [index_loop];
    rewrite (Cities_getitem_spec _ _ _ _ _ Hc Hd).
  - assert (list_getitem l (Z.of_nat k) = Raise IndexError) as ->
      by (apply list_getitem_IndexError; lia).
    rewrite drop_ge by lia. by rewrite app_nil_r.
  - destruct (lookup_lt_is_Some_2 l k) as [x Hx]; [lia|].
    rewrite (list_getitem_nat _ _ _ Hx).
    replace (Z.of_nat k + 1) with (Z.of_nat (S k)) by lia.
    rewrite IH; simpl; [|done|done|lia|lia].
    rewrite (drop_S _ _ _ Hx), <- !app_assoc. done.
Qed.

Lemma nexts_frame k p : ∀ σ q,
  q ≠ p → heap (nexts k p σ).2 !! q = heap σ !! q.
Proof.
  induction k as [|k IH]; intros σ q Hq; [done|].
  rewrite calls_S.
  pose proof (py_next_Ret p σ) as HR. pose proof (py_next_Raise p σ) as HE.
  destruct (py_next p σ) as [r σ']. simpl in *.
  specialize (IH σ' q Hq).
  destruct (nexts k p σ') as [rs σ'']. simpl in *. rewrite IH.
  destruct r as [v|e].
  - destruct (HR v) as (o & i & _ & _ & ->); [done|].
    by rewrite lookup_insert_ne.
  - by rewrite (HE e).
Qed.

Lemma nexts_exhausted k p : ∀ σ,
  (py_next p σ).1 = Raise StopIteration →
  (nexts k p σ).1 = replicate k (Raise StopIteration).
Proof.
  induction k as [|k IH]; intros σ Hstop; [done|].
  rewrite calls_S.
  pose proof (py_next_Raise p σ StopIteration Hstop) as HE.
  pose proof (py_next_outcome_heap p (py_next p σ).2 σ HE) as Hsame.
  destruct (py_next p σ) as [r σ']. simpl in *. subst r.
  specialize (IH σ' Hsame).
  destruct (nexts k p σ') as [rs σ'']. simpl in *. by rewrite IH.
Qed.

(** * The claims *)

(** C1. For a [Cities] container whose [len] is [n] (possibly [0]), the
    producer that [iter] returns is a new object; [n] calls of [next] on it
    yield the [n] elements in list order and call [n+1] raises
    [StopIteration].  For the empty container the first [next] already
    raises [StopIteration] and [len] is [0]. *)
Theorem fresh_producer_yields_all σ c d l :
  heap σ !! c = Some (OCities d l) →
  cities_has_iter d = true →
  ∃ p σ1,
    py_iter c σ = (Ret p, σ1) ∧
    heap σ !! p = None ∧
    (py_len c σ).1 = Ret (Z.of_nat (length l)) ∧
    (nexts (S (length l)) p σ1).1 =
      ((λ s, Ret (VStr s)) <$> l) ++ [Raise StopIteration] ∧
    (l = [] →
     (py_next p σ1).1 = Raise StopIteration ∧ (py_len c σ).1 = Ret 0).
Proof.
  intros Hc Hd. eexists _, _.
  split; [apply (Cities_iter_spec _ _ _ _ Hc Hd)|].
  pose proof (fresh_heap_None (heap σ)) as Hfresh.
  split; [done|].
  split; [by rewrite (py_len_Cities _ _ _ _ Hc)|].
  set (σ1 := State _ _).
  assert (heap σ1 !! fresh (dom (heap σ)) =
          Some (OCityIterator true c (Z.of_nat 0))) as Hp
    by (unfold σ1; simpl; apply lookup_insert_eq).
  assert (heap σ1 !! c = Some (OCities d l)) as Hc1.
  { unfold σ1; simpl. rewrite lookup_insert_ne; [done|]. congruence. }
  split.
  - by destruct (nexts_CityIterator true c d l (length l) σ1 _ 0%nat Hp Hc1).
  - intros ->. split.
    + by rewrite (CityIterator_next_exhausted _ _ _ _ _ _ _ Hp Hc1).
    + by rewrite (py_len_Cities _ _ _ _ Hc).
Qed.

Lemma fresh_producer_yields_all_witness :
  heap (after_Cities CitiesIterable) !! 1%positive =
    Some (OCities CitiesIterable
            ["New York"; "Newark"; "New Delhi"; "Newcastle"]) ∧
  cities_has_iter CitiesIterable = true ∧
  ∃ p σ1,
    py_iter 1%positive (after_Cities CitiesIterable) = (Ret p, σ1) ∧
    heap (after_Cities CitiesIterable) !! p = None ∧
    (py_len 1%positive (after_Cities CitiesIterable)).1 = Ret 4 ∧
    (nexts 5 p σ1).1 =
      [Ret (VStr "New York"); Ret (VStr "Newark"); Ret (VStr "New Delhi");
       Ret (VStr "Newcastle"); Raise StopIteration] ∧
    (["New York"; "Newark"; "New Delhi"; "Newcastle"] = [] →
     (py_next p σ1).1 = Raise StopIteration ∧
     (py_len 1%positive (after_Cities CitiesIterable)).1 = Ret 0).
Proof.
  split; [reflexivity|]. split; [reflexivity|].
  apply (fresh_producer_yields_all (after_Cities CitiesIterable) 1%positive
           CitiesIterable ["New York"; "Newark"; "New Delhi"; "Newcastle"]);
    reflexivity.
Defined.

(** The empty container: [len] is 0 and the first [next] on its producer
    raises [StopIteration]. *)
Example empty_container :
  (py_len 1%positive (store_Cities CitiesIterable [])).1 = Ret 0 ∧
  (nexts 1 2%positive
     (py_iter 1%positive (store_Cities CitiesIterable [])).2).1 =
    [Raise StopIteration].
Proof. split; reflexivity. Qed.

(** C10. The unbounded [Squares] never raises: on a new instance, call
    number [j+1] of [next_] returns the square of [j], so the calls produce
    0, 1, 4, 9, ... in this order. *)
Theorem unbounded_squares σ :
  ∃ p σ1,
    SquaresInf___init__ σ = (Ret p, σ1) ∧
    ∀ k : nat,
      (calls k (SquaresInf_next_ p) σ1).1 =
        (λ j, Ret (VInt (j ^ 2))) <$> seqZ 0 (Z.of_nat k) ∧
      (calls (S k) (SquaresInf_next_ p) σ1).1 !! k =
        Some (Ret (VInt (Z.of_nat k ^ 2))).
Proof.
  eexists _, _. split; [reflexivity|]. intros k.
  assert (∀ k : nat,
    (calls k (SquaresInf_next_ (fresh (dom (heap σ))))
       (State (<[fresh (dom (heap σ)) := OSquaresInf 0]> (heap σ))
              (stdout σ))).1 =
    (λ j, Ret (VInt (j ^ 2))) <$> seqZ 0 (Z.of_nat k)) as Hcalls.
  { intros k'. apply calls_SquaresInf. simpl. apply lookup_insert_eq. }
  split; [apply Hcalls|].
  rewrite Hcalls, list_lookup_fmap, lookup_seqZ_lt by lia.
  simpl. do 3 f_equal; lia.
Qed.

(** Part-1.ipynb line 513: [sq = Squares(3)] and four [next(sq)]. *)
Example Squares_three :
  (nexts 4 1%positive (Squares___init__ SqDunderLen 3 empty_state).2).1 =
    [Ret (VInt 0); Ret (VInt 1); Ret (VInt 4); Raise StopIteration].
Proof. reflexivity. Qed.

(** Part-1.ipynb lines 976-1022: a [for] loop over [Squares(5)] prints the
    five squares, and a second loop over the same object prints nothing. *)
Example Squares_traversed_twice :
  ∃ σ1 σ2,
    traverse 6 1%positive (Squares___init__ SqIterator 5 empty_state).2 =
      Some (Ret [VInt 0; VInt 1; VInt 4; VInt 9; VInt 16], σ1) ∧
    traverse 6 1%positive σ1 = Some (Ret [], σ2).
Proof. eexists _, _. split; reflexivity. Qed.

(** C2. Once [next] has raised [StopIteration] on a producer, it raises
    [StopIteration] again at every later call, whatever operations the
    program performs on this or any other object in between: no other
    exception, and no value. *)
Theorem exhaustion_is_permanent σ p :
  (py_next p σ).1 = Raise StopIteration →
  (∀ k, (nexts k p (py_next p σ).2).1 = replicate k (Raise StopIteration)) ∧
  (∀ os, (py_next p (run_ops os (py_next p σ).2)).1 = Raise StopIteration).
Proof.
  intros Hstop.
  assert (heap (py_next p σ).2 = heap σ) as Hheap
    by (by apply (py_next_Raise p σ StopIteration)).
  split.
  - intros k. apply nexts_exhausted.
    by rewrite (py_next_outcome_heap p _ σ).
  - intros os. apply (exhausted_stable σ); [|done].
    rewrite <- Hheap. apply run_ops_heap_le.
Qed.

Lemma exhaustion_is_permanent_witness :
  (py_next 1%positive after_three_squares).1 = Raise StopIteration ∧
  (∀ k, (nexts k 1%positive (py_next 1%positive after_three_squares).2).1 =
        replicate k (Raise StopIteration)) ∧
  (∀ os, (py_next 1%positive
            (run_ops os (py_next 1%positive after_three_squares).2)).1 =
         Raise StopIteration).
Proof.
  split; [reflexivity|].
  apply (exhaustion_is_permanent after_three_squares 1%positive).
  reflexivity.
Defined.

(** C3. For a producer [p] (an object whose class defines [__next__] and
    [__iter__]) in any state, [iter(p)] returns [p] itself and leaves the
    store as it is: no object is created, the cursor is the same and the
    next [next(p)] has the same outcome as before. *)
Theorem producer_iter_is_self σ p o :
  heap σ !! p = Some o →
  defines___next__ o = true →
  defines___iter__ o = true →
  (py_iter p σ).1 = Ret p ∧
  heap (py_iter p σ).2 = heap σ ∧
  cursor_at (heap (py_iter p σ).2) p = cursor o ∧
  (py_next p (py_iter p σ).2).1 = (py_next p σ).1.
Proof.
  intros Hp Hnext Hiter.
  assert ((py_iter p σ).1 = Ret p ∧ heap (py_iter p σ).2 = heap σ) as [H1 H2].
  { run. rewrite Hp. simpl. rewrite Hiter.
    destruct o; simpl in *; try done; rewrite Hp; simpl;
      repeat split_code; done. }
  split_and!; [done|done| |by apply py_next_outcome_heap].
  unfold cursor_at. by rewrite H2, Hp.
Qed.

Lemma producer_iter_is_self_witness :
  heap after_two_cities !! 2%positive = Some (OCityIterator true 1 2) ∧
  defines___next__ (OCityIterator true 1 2) = true ∧
  defines___iter__ (OCityIterator true 1 2) = true ∧
  (py_iter 2%positive after_two_cities).1 = Ret 2%positive ∧
  heap (py_iter 2%positive after_two_cities).2 = heap after_two_cities ∧
  cursor_at (heap (py_iter 2%positive after_two_cities).2) 2%positive =
    cursor (OCityIterator true 1 2) ∧
  (py_next 2%positive (py_iter 2%positive after_two_cities).2).1 =
    (py_next 2%positive after_two_cities).1.
Proof.
  split; [reflexivity|]. split; [reflexivity|]. split; [reflexivity|].
  apply (producer_iter_is_self after_two_cities 2%positive
           (OCityIterator true 1 2)); reflexivity.
Defined.

(** C4. Each [iter(c)] on a [Cities] container builds a new [CityIterator]
    with cursor 0, distinct from every object already in the store.  Two
    producers obtained this way advance independently: any number of
    [next] calls on the first leaves every other object, the second
    producer included, as it was, and the next [next] of the second still
    returns the first element (or raises [StopIteration] for the empty
    container). *)
Theorem producers_independent σ c d l :
  heap σ !! c = Some (OCities d l) →
  cities_has_iter d = true →
  ∃ p1 σ1 p2 σ2,
    py_iter c σ = (Ret p1, σ1) ∧
    py_iter c σ1 = (Ret p2, σ2) ∧
    heap σ !! p1 = None ∧ heap σ1 !! p2 = None ∧ p1 ≠ p2 ∧
    heap σ1 !! p1 = Some (OCityIterator true c 0) ∧
    heap σ2 !! p1 = Some (OCityIterator true c 0) ∧
    heap σ2 !! p2 = Some (OCityIterator true c 0) ∧
    ∀ k,
      (∀ q, q ≠ p1 → heap (nexts k p1 σ2).2 !! q = heap σ2 !! q) ∧
      cursor_at (heap (nexts k p1 σ2).2) p2 = Some 0 ∧
      (py_next p2 (nexts k p1 σ2).2).1 = (py_next p2 σ2).1 ∧
      (py_next p2 σ2).1 =
        match l with
        | [] => Raise StopIteration
        | x :: _ => Ret (VStr x)
        end.
Proof.
  intros Hc Hd.
  pose proof (Cities_iter_spec _ _ _ _ Hc Hd) as H1.
  set (p1 := fresh (dom (heap σ))) in *.
  set (σ1 := State _ _) in H1.
  assert (heap σ !! p1 = None) as Hf1 by apply fresh_heap_None.
  assert (p1 ≠ c) as Hne1 by congruence.
  assert (heap σ1 !! c = Some (OCities d l)) as Hc1
    by (unfold σ1; simpl; by rewrite lookup_insert_ne).
  assert (heap σ1 !! p1 = Some (OCityIterator true c 0)) as Hp1
    by (unfold σ1; simpl; apply lookup_insert_eq).
  pose proof (Cities_iter_spec _ _ _ _ Hc1 Hd) as H2.
  set (p2 := fresh (dom (heap σ1))) in *.
  set (σ2 := State _ _) in H2.
  assert (heap σ1 !! p2 = None) as Hf2 by apply fresh_heap_None.
  assert (p1 ≠ p2) as Hne12 by congruence.
  assert (p2 ≠ c) as Hne2 by congruence.
  assert (heap σ2 !! c = Some (OCities d l)) as Hc2
    by (unfold σ2; simpl; by rewrite lookup_insert_ne).
  assert (heap σ2 !! p2 = Some (OCityIterator true c (Z.of_nat 0))) as Hp2
    by (unfold σ2; simpl; apply lookup_insert_eq).
  assert (heap σ2 !! p1 = Some (OCityIterator true c 0)) as Hp12
    by (unfold σ2; simpl; by rewrite lookup_insert_ne).
  exists p1, σ1, p2, σ2. split_and!; try done.
  intros k.
  assert (∀ q, q ≠ p1 → heap (nexts k p1 σ2).2 !! q = heap σ2 !! q) as Hfr
    by (intros q Hq; by apply nexts_frame).
  assert ((py_next p2 σ2).1 =
          match l with [] => Raise StopIteration | x :: _ => Ret (VStr x) end)
    as Hout2.
  { destruct l as [|x l'].
    - by rewrite (CityIterator_next_exhausted _ _ _ _ _ _ _ Hp2 Hc2).
    - by rewrite (CityIterator_next_item _ _ _ _ _ _ 0%nat x Hp2 Hc2). }
  split_and!; [done| | |done].
  - unfold cursor_at. by rewrite Hfr, Hp2.
  - rewrite Hout2. destruct l as [|x l'].
    + rewrite (CityIterator_next_exhausted _ p2 true c d [] 0);
        [done| | |simpl; lia].
      * rewrite Hfr by done. exact Hp2.
      * rewrite Hfr by done. exact Hc2.
    + rewrite (CityIterator_next_item _ p2 true c d (x :: l') 0%nat x);
        [done| | |done].
      * rewrite Hfr by done. exact Hp2.
      * rewrite Hfr by done. exact Hc2.
Qed.

Lemma producers_independent_witness :
  heap (after_Cities CitiesIterable) !! 1%positive =
    Some (OCities CitiesIterable
            ["New York"; "Newark"; "New Delhi"; "Newcastle"]) ∧
  cities_has_iter CitiesIterable = true ∧
  ∃ p1 σ1 p2 σ2,
    py_iter 1%positive (after_Cities CitiesIterable) = (Ret p1, σ1) ∧
    py_iter 1%positive σ1 = (Ret p2, σ2) ∧
    heap (after_Cities CitiesIterable) !! p1 = None ∧
    heap σ1 !! p2 = None ∧ p1 ≠ p2 ∧
    heap σ1 !! p1 = Some (OCityIterator true 1 0) ∧
    heap σ2 !! p1 = Some (OCityIterator true 1 0) ∧
    heap σ2 !! p2 = Some (OCityIterator true 1 0) ∧
    ∀ k,
      (∀ q, q ≠ p1 → heap (nexts k p1 σ2).2 !! q = heap σ2 !! q) ∧
      cursor_at (heap (nexts k p1 σ2).2) p2 = Some 0 ∧
      (py_next p2 (nexts k p1 σ2).2).1 = (py_next p2 σ2).1 ∧
      (py_next p2 σ2).1 = Ret (VStr "New York").
Proof.
  split; [reflexivity|]. split; [reflexivity|].
  apply (producers_independent (after_Cities CitiesIterable) 1%positive
           CitiesIterable ["New York"; "Newark"; "New Delhi"; "Newcastle"]);
    reflexivity.
Defined.

(** C5. For a [Cities] container whose list is Paris, Berlin, Rome: a
    traversal yields the three names in order; a second traversal of the
    container, which obtains its own producer, yields them again; and a
    traversal of the producer that the first traversal used, now exhausted,
    yields the empty list. *)
Theorem paris_berlin_rome σ c d fuel :
  heap σ !! c = Some (OCities d ["Paris"; "Berlin"; "Rome"]) →
  cities_has_iter d = true →
  (4 ≤ fuel)%nat →
  ∃ p1 σ1 σ2 σ3,
    traverse fuel c σ =
      Some (Ret [VStr "Paris"; VStr "Berlin"; VStr "Rome"], σ1) ∧
    traverse fuel c σ1 =
      Some (Ret [VStr "Paris"; VStr "Berlin"; VStr "Rome"], σ2) ∧
    heap σ !! p1 = None ∧
    heap σ1 !! p1 = Some (OCityIterator true c 3) ∧
    heap σ2 !! p1 = Some (OCityIterator true c 3) ∧
    traverse fuel p1 σ2 = Some (Ret [], σ3).
Proof.
  intros Hc Hd Hfuel.
  pose proof (traverse_Cities σ c d _ fuel Hc Hd) as H1.
  set (p1 := fresh (dom (heap σ))) in *.
  set (σ1 := State _ _) in H1.
  assert (heap σ !! p1 = None) as Hf1 by apply fresh_heap_None.
  assert (p1 ≠ c) as Hne1 by congruence.
  assert (heap σ1 !! c = Some (OCities d ["Paris"; "Berlin"; "Rome"])) as Hc1
    by (unfold σ1; simpl; by rewrite lookup_insert_ne).
  assert (heap σ1 !! p1 = Some (OCityIterator true c 3)) as Hp1
    by (unfold σ1; simpl; apply lookup_insert_eq).
  pose proof (traverse_Cities σ1 c d _ fuel Hc1 Hd) as H2.
  set (p2 := fresh (dom (heap σ1))) in *.
  set (σ2 := State _ _) in H2.
  assert (heap σ1 !! p2 = None) as Hf2 by apply fresh_heap_None.
  assert (p2 ≠ c) as Hne2 by congruence.
  assert (p2 ≠ p1) as Hne12 by congruence.
  assert (heap σ2 !! c = Some (OCities d ["Paris"; "Berlin"; "Rome"])) as Hc2
    by (unfold σ2; simpl; by rewrite lookup_insert_ne).
  assert (heap σ2 !! p1 = Some (OCityIterator true c 3)) as Hp12
    by (unfold σ2; simpl; by rewrite lookup_insert_ne).
  destruct (traverse_exhausted_CityIterator σ2 p1 true c d
              ["Paris"; "Berlin"; "Rome"] fuel Hp12 Hc2) as (σ3 & H3 & _);
    [lia|].
  exists p1, σ1, σ2, σ3. split_and!; try done.
  - apply H1. simpl. lia.
  - apply H2. simpl. lia.
Qed.

Lemma paris_berlin_rome_witness :
  heap (store_Cities CitiesIterable ["Paris"; "Berlin"; "Rome"]) !! 1%positive
    = Some (OCities CitiesIterable ["Paris"; "Berlin"; "Rome"]) ∧
  cities_has_iter CitiesIterable = true ∧
  (4 ≤ 4)%nat ∧
  ∃ p1 σ1 σ2 σ3,
    traverse 4 1%positive
      (store_Cities CitiesIterable ["Paris"; "Berlin"; "Rome"]) =
      Some (Ret [VStr "Paris"; VStr "Berlin"; VStr "Rome"], σ1) ∧
    traverse 4 1%positive σ1 =
      Some (Ret [VStr "Paris"; VStr "Berlin"; VStr "Rome"], σ2) ∧
    heap (store_Cities CitiesIterable ["Paris"; "Berlin"; "Rome"]) !! p1
      = None ∧
    heap σ1 !! p1 = Some (OCityIterator true 1 3) ∧
    heap σ2 !! p1 = Some (OCityIterator true 1 3) ∧
    traverse 4 p1 σ2 = Some (Ret [], σ3).
Proof.
  split; [reflexivity|]. split; [reflexivity|]. split; [lia|].
  apply (paris_berlin_rome
           (store_Cities CitiesIterable ["Paris"; "Berlin"; "Rome"])
           1%positive CitiesIterable 4); [reflexivity|reflexivity|lia].
Defined.

(** The [Cities] of line 63 is its own iterator: a first traversal yields
    the five names, a second one nothing (the notebook re-creates the
    object before each use). *)
Example CitiesSelf_traversed_twice :
  ∃ σ1 σ2,
    traverse 6 1%positive (CitiesSelf___init__ empty_state).2 =
      Some (Ret [VStr "Paris"; VStr "Berlin"; VStr "Rome"; VStr "Madrid";
                 VStr "London"], σ1) ∧
    traverse 6 1%positive σ1 = Some (Ret [], σ2).
Proof. eexists _, _. split; reflexivity. Qed.

(** C6, as stated, fails: on the [Cities()] of line 862, position [-1] is
    negative and [cities[-1]] returns 'Newcastle' instead of raising
    [IndexError]. *)
Lemma getitem_minus_one_counterexample :
  (py_getitem 1%positive (-1) (after_Cities CitiesSequence)).1 =
    Ret (VStr "Newcastle") ∧
  ¬ out_of_range_iff_negative_or_beyond
      (after_Cities CitiesSequence) 1%positive (-1).
Proof.
  split; [reflexivity|].
  intros (n & _ & Hiff).
  assert ((py_getitem 1%positive (-1) (after_Cities CitiesSequence)).1 =
          Raise IndexError) as Habs by (apply Hiff; right; lia).
  vm_compute in Habs. discriminate Habs.
Qed.

(** C6, amended. [x[s]] on a [Cities] with [__getitem__] raises
    [IndexError] exactly when [s >= len(x)] or [s < -len(x)]; for
    [0 <= s < len(x)] it returns the element at [s], and for
    [-len(x) <= s < 0] the element at [s + len(x)].  [IndexError] is not
    [StopIteration], and [x[s]] never raises [StopIteration]. *)
Theorem getitem_out_of_range σ c d l s :
  heap σ !! c = Some (OCities d l) →
  cities_has_getitem d = true →
  ((py_getitem c s σ).1 = Raise IndexError ↔
   Z.of_nat (length l) ≤ s ∨ s < - Z.of_nat (length l)) ∧
  (0 ≤ s < Z.of_nat (length l) →
   ∃ x, l !! Z.to_nat s = Some x ∧ (py_getitem c s σ).1 = Ret (VStr x)) ∧
  (- Z.of_nat (length l) ≤ s < 0 →
   ∃ x, l !! Z.to_nat (s + Z.of_nat (length l)) = Some x ∧
        (py_getitem c s σ).1 = Ret (VStr x)) ∧
  (py_len c σ).1 = Ret (Z.of_nat (length l)) ∧
  (py_getitem c s σ).1 ≠ Raise StopIteration ∧
  IndexError ≠ StopIteration.
Proof.
  intros Hc Hd. rewrite (Cities_getitem_spec _ _ _ _ s Hc Hd). simpl.
  split_and!.
  - rewrite <- list_getitem_IndexError.
    destruct (list_getitem l s) as [x|e] eqn:Hg; [done|].
    apply list_getitem_raises in Hg. by subst e.
  - intros Hs. destruct (list_getitem_in_range l s Hs) as (x & Hx & ->).
    eauto.
  - intros Hs. rewrite (list_getitem_negative l s Hs).
    destruct (list_getitem_in_range l (s + Z.of_nat (length l)))
      as (x & Hx & ->); [lia|]. eauto.
  - by rewrite (py_len_Cities _ _ _ _ Hc).
  - destruct (list_getitem l s) as [x|e] eqn:Hg; [done|].
    apply list_getitem_raises in Hg. by subst e.
  - done.
Qed.

Lemma getitem_out_of_range_witness :
  heap (after_Cities CitiesSequence) !! 1%positive =
    Some (OCities CitiesSequence
            ["New York"; "Newark"; "New Delhi"; "Newcastle"]) ∧
  cities_has_getitem CitiesSequence = true ∧
  ((py_getitem 1%positive 4 (after_Cities CitiesSequence)).1 =
     Raise IndexError ↔ 4 ≤ 4 ∨ 4 < - 4) ∧
  (0 ≤ 4 < 4 →
   ∃ x, ["New York"; "Newark"; "New Delhi"; "Newcastle"] !! Z.to_nat 4
          = Some x ∧
        (py_getitem 1%positive 4 (after_Cities CitiesSequence)).1 =
          Ret (VStr x)) ∧
  (- 4 ≤ 4 < 0 →
   ∃ x, ["New York"; "Newark"; "New Delhi"; "Newcastle"] !! Z.to_nat (4 + 4)
          = Some x ∧
        (py_getitem 1%positive 4 (after_Cities CitiesSequence)).1 =
          Ret (VStr x)) ∧
  (py_len 1%positive (after_Cities CitiesSequence)).1 = Ret 4 ∧
  (py_getitem 1%positive 4 (after_Cities CitiesSequence)).1 ≠
    Raise StopIteration ∧
  IndexError ≠ StopIteration.
Proof.
  split; [reflexivity|]. split; [reflexivity|].
  apply (getitem_out_of_range (after_Cities CitiesSequence) 1%positive
           CitiesSequence ["New York"; "Newark"; "New Delhi"; "Newcastle"] 4);
    reflexivity.
Defined.

(** The objects that support positional access are the [Cities] of a
    definition with [__getitem__]. *)
Lemma defines_getitem_Cities o :
  defines___getitem__ o = true →
  ∃ d l, o = OCities d l ∧ cities_has_getitem d = true.
Proof. destruct o; try done. eauto. Qed.

(** C7. Take a [Cities] object of [n] elements whose class defines
    [__getitem__].  When the class also defines [__iter__], the traversal
    obtains a [CityIterator] from [__iter__] and the output shows the calls
    of [__iter__] and [__next__] only: [__getitem__], which prints
    'getting item...', is never called.  When the class defines no
    [__iter__], the traversal creates no object, returns the elements at
    positions [0 .. n-1] in order and stops at the [IndexError] of position
    [n], having called [__getitem__] [n+1] times. *)
Theorem traversal_prefers_iter σ x d l fuel :
  heap σ !! x = Some (OCities d l) →
  cities_has_getitem d = true →
  (length l < fuel)%nat →
  ∃ σ', traverse fuel x σ = Some (Ret (VStr <$> l), σ') ∧
    if cities_has_iter d then
      heap σ' =
        <[fresh (dom (heap σ)) :=
            OCityIterator true x (Z.of_nat (length l))]> (heap σ) ∧
      stdout σ' =
        stdout σ ++
        ["Calling Cities instance __iter__";
         "Calling CityIterator __init__"] ++
        replicate (S (length l)) "Calling __next__"
    else
      heap σ' = heap σ ∧
      stdout σ' = stdout σ ++ replicate (S (length l)) "getting item..." ∧
      (∀ (k : nat) s, l !! k = Some s →
         (py_getitem x (Z.of_nat k) σ).1 = Ret (VStr s)) ∧
      (py_getitem x (Z.of_nat (length l)) σ).1 = Raise IndexError.
Proof.
  intros Hx Hget Hfuel.
  destruct (cities_has_iter d) eqn:Hd.
  - eexists. split; [by apply (traverse_Cities σ x d l fuel)|]. done.
  - eexists. split.
    + unfold traverse. rewrite Hx. simpl. rewrite Hd, Hget.
      change 0 with (Z.of_nat 0).
      rewrite (index_loop_Cities x d l (length l) σ 0%nat [] fuel);
        [|done..].
      done.
    + simpl. split_and!; [done|done| |].
      * intros k s Hk. rewrite (Cities_getitem_spec _ _ _ _ _ Hx Hget).
        simpl. by rewrite (list_getitem_nat _ _ _ Hk).
      * rewrite (Cities_getitem_spec _ _ _ _ _ Hx Hget). simpl.
        assert (list_getitem l (Z.of_nat (length l)) = Raise IndexError)
          as -> by (apply list_getitem_IndexError; lia).
        done.
Qed.

Lemma traversal_prefers_iter_witness :
  heap (after_Cities CitiesSequence) !! 1%positive =
    Some (OCities CitiesSequence
            ["New York"; "Newark"; "New Delhi"; "Newcastle"]) ∧
  cities_has_getitem CitiesSequence = true ∧
  (4 < 5)%nat ∧
  ∃ σ', traverse 5 1%positive (after_Cities CitiesSequence) =
          Some (Ret [VStr "New York"; VStr "Newark"; VStr "New Delhi";
                     VStr "Newcastle"], σ') ∧
    heap σ' =
      <[fresh (dom (heap (after_Cities CitiesSequence))) :=
          OCityIterator true 1 4]> (heap (after_Cities CitiesSequence)) ∧
    stdout σ' =
      ["Calling Cities instance __iter__"; "Calling CityIterator __init__";
       "Calling __next__"; "Calling __next__"; "Calling __next__";
       "Calling __next__"; "Calling __next__"].
Proof.
  split; [reflexivity|]. split; [reflexivity|]. split; [lia|].
  apply (traversal_prefers_iter (after_Cities CitiesSequence) 1%positive
           CitiesSequence ["New York"; "Newark"; "New Delhi"; "Newcastle"] 5);
    [reflexivity|reflexivity|simpl; lia].
Defined.

(** The fallback on the notebook's list, for a class without [__iter__]:
    five calls of [__getitem__], positions 0 to 4. *)
Example index_only_traversal :
  ∃ σ', traverse 5 1%positive (after_Cities CitiesIndexOnly) =
          Some (Ret [VStr "New York"; VStr "Newark"; VStr "New Delhi";
                     VStr "Newcastle"], σ') ∧
    heap σ' = heap (after_Cities CitiesIndexOnly) ∧
    stdout σ' = ["getting item..."; "getting item..."; "getting item...";
                 "getting item..."; "getting item..."].
Proof. eexists. split_and!; reflexivity. Qed.

(** C8. A call of [next(p)] changes nothing in the store but the cursor
    field of [p]: every other object is as before, [p] keeps its class and
    its other fields, no object is created, and each [Cities] container
    keeps its list and its [len].  The silent definitions write nothing;
    the ones with print calls write their one line. *)
Theorem next_only_moves_cursor σ p :
  (∀ q, q ≠ p → heap (py_next p σ).2 !! q = heap σ !! q) ∧
  (∀ o, heap σ !! p = Some o →
        ∃ o', heap (py_next p σ).2 !! p = Some o' ∧ frame o' = frame o) ∧
  dom (heap (py_next p σ).2) = dom (heap σ) ∧
  (∀ c d l, heap σ !! c = Some (OCities d l) →
            heap (py_next p σ).2 !! c = Some (OCities d l) ∧
            (py_len c (py_next p σ).2).1 = (py_len c σ).1) ∧
  stdout (py_next p σ).2 =
    stdout σ ++ from_option next_trace [] (heap σ !! p).
Proof.
  assert (heap (py_next p σ).2 = heap σ ∨
          ∃ o, heap σ !! p = Some o ∧
               heap (py_next p σ).2 = <[p := bump o]> (heap σ)) as Hheap.
  { destruct (py_next p σ).1 as [v|e] eqn:Hr.
    - right. destruct (py_next_Ret _ _ _ Hr) as (o & i & Hp & _ & Hh). eauto.
    - left. by apply (py_next_Raise _ _ e). }
  assert (∀ c d l, heap σ !! c = Some (OCities d l) →
                   heap (py_next p σ).2 !! c = Some (OCities d l)) as Hcont.
  { intros c d l Hc. destruct Hheap as [->|(o & Hp & ->)]; [done|].
    destruct (decide (p = c)) as [->|Hne].
    - rewrite lookup_insert_eq. by simplify_eq.
    - by rewrite lookup_insert_ne. }
  split_and!.
  - intros q Hq. destruct Hheap as [->|(o & _ & ->)]; [done|].
    by rewrite lookup_insert_ne.
  - intros o Hp. destruct Hheap as [->|(o1 & Hp1 & ->)]; [eauto|].
    rewrite lookup_insert_eq. simplify_eq.
    eexists. split; [done|]. apply frame_bump.
  - destruct Hheap as [->|(o & Hp & ->)]; [done|].
    by apply dom_insert_lookup_L.
  - intros c d l Hc. split; [by apply Hcont|].
    by rewrite (py_len_Cities _ _ _ _ (Hcont _ _ _ Hc)),
               (py_len_Cities _ _ _ _ Hc).
  - apply py_next_stdout.
Qed.

(** C9. The cursor of a producer never moves back.  One [next] adds one to
    it when it returns a value and leaves it unchanged when it raises.
    Through any sequence of operations of the program the cursor stays at
    or above its value; and once it has reached the limit (the [length] of
    a [Squares], the [len] of the container of a [CityIterator]), the limit
    is still the same, the cursor is still at or above it, and [next]
    raises [StopIteration]. *)
Theorem cursor_monotone σ p i :
  cursor_at (heap σ) p = Some i →
  (cursor_at (heap (py_next p σ).2) p =
     match (py_next p σ).1 with
     | Ret _ => Some (i + 1)
     | Raise _ => Some i
     end) ∧
  ∀ os,
    ∃ i', cursor_at (heap (run_ops os σ)) p = Some i' ∧ i ≤ i' ∧
      ∀ n, limit (heap σ) p = Some n → n ≤ i →
           limit (heap (run_ops os σ)) p = Some n ∧ n ≤ i' ∧
           (py_next p σ).1 = Raise StopIteration ∧
           (py_next p (run_ops os σ)).1 = Raise StopIteration.
Proof.
  intros Hi. split.
  - destruct (py_next p σ).1 as [v|e] eqn:Hr.
    + destruct (py_next_Ret _ _ _ Hr) as (o & j & Hp & Hj & ->).
      unfold cursor_at in *. rewrite lookup_insert_eq. rewrite Hp in Hi.
      simpl in *. destruct o; simpl in *; simplify_eq; done.
    + by rewrite (py_next_Raise _ _ _ Hr).
  - intros os. pose proof (run_ops_heap_le os σ) as Hle.
    destruct (heap_le_cursor_at _ _ _ _ Hle Hi) as (i' & Hi' & Hii').
    exists i'. split_and!; [done..|].
    intros n Hn Hni.
    assert ((py_next p σ).1 = Raise StopIteration) as Hstop
      by (apply py_next_StopIteration; eauto).
    split_and!; [eauto using heap_le_limit|lia|done|].
    by apply (exhausted_stable σ).
Qed.

Lemma cursor_monotone_witness :
  cursor_at (heap after_three_squares) 1%positive = Some 3 ∧
  (cursor_at (heap (py_next 1%positive after_three_squares).2) 1%positive =
     match (py_next 1%positive after_three_squares).1 with
     | Ret _ => Some (3 + 1)
     | Raise _ => Some 3
     end) ∧
  ∀ os,
    ∃ i', cursor_at (heap (run_ops os after_three_squares)) 1%positive =
            Some i' ∧
      3 ≤ i' ∧
      ∀ n, limit (heap after_three_squares) 1%positive = Some n → n ≤ 3 →
           limit (heap (run_ops os after_three_squares)) 1%positive = Some n ∧
           n ≤ i' ∧
           (py_next 1%positive after_three_squares).1 = Raise StopIteration ∧
           (py_next 1%positive (run_ops os after_three_squares)).1 =
             Raise StopIteration.
Proof.
  split; [reflexivity|].
  apply (cursor_monotone after_three_squares 1%positive 3). reflexivity.
Defined.

(** * Further properties of the notebooks' code *)

(** ** The loop and successive calls of [next] *)

Lemma next_loop_acc fuel p : ∀ acc σ,
  next_loop fuel p acc σ =
    match next_loop fuel p [] σ with
    | Some (Ret vs, σ') => Some (Ret (acc ++ vs), σ')
    | Some (Raise e, σ') => Some (Raise e, σ')
    | None => None
    end.
Proof.
  induction fuel as [|fuel IH]; intros acc σ; [done|]. cbn [next_loop].
  destruct (py_next p σ) as [[v|e] σ'].
  - rewrite (IH (acc ++ [v])), (IH ([] ++ [v])).
    destruct (next_loop fuel p [] σ') as [[[vs|e] σ'']|]; [|done..].
    by rewrite <- app_assoc.
  - destruct e; by rewrite ?app_nil_r.
Qed.

Lemma next_loop_fuel_mono fuel p : ∀ acc σ res fuel',
  next_loop fuel p acc σ = Some res → (fuel ≤ fuel')%nat →
  next_loop fuel' p acc σ = Some res.
Proof.
  induction fuel as [|fuel IH]; intros acc σ res fuel' Hres Hle; [done|].
  destruct fuel' as [|fuel']; [lia|]. cbn [next_loop] in *.
  destruct (py_next p σ) as [[v|e] σ']; [|done].
  apply IH; [done|lia].
Qed.

Lemma next_loop_iff_nexts fuel p σ vs σ' :
  (length vs < fuel)%nat →
  next_loop fuel p [] σ = Some (Ret vs, σ') ↔
  nexts (S (length vs)) p σ = ((Ret <$> vs) ++ [Raise StopIteration], σ').
Proof.
  revert fuel σ. induction vs as [|v vs IH]; intros fuel σ Hfuel;
    (destruct fuel as [|fuel]; [simpl in Hfuel; lia|]);
    rewrite calls_S; cbn [next_loop].
  - destruct (py_next p σ) as [[v|e] σ1]; simpl.
    + rewrite next_loop_acc. split.
      * destruct (next_loop fuel p [] σ1) as [[[ws|e] σ2]|]; [|done..].
        intros; simplify_eq.
      * intros; simplify_eq.
    + destruct e; split; intros; simplify_eq; done.
  - simpl in Hfuel. destruct (py_next p σ) as [[w|e] σ1]; simpl.
    + rewrite next_loop_acc.
      assert (length vs < fuel)%nat as Hfuel' by lia.
      specialize (IH fuel σ1 Hfuel'). split.
      * destruct (next_loop fuel p [] σ1) as [[[ws|e] σ3]|]; [|done..].
        intros; simplify_eq. by rewrite (proj1 IH eq_refl).
      * destruct (nexts (S (length vs)) p σ1) as [rs σ2].
        intros; simplify_eq. by rewrite (proj2 IH eq_refl).
    + destruct (nexts (S (length vs)) p σ1) as [rs σ2].
      destruct e; split; intros; simplify_eq.
Qed.

(** X12. The loop of part-1.ipynb lines 1548-1553 collects exactly what
    successive calls of [next] return up to the first [StopIteration], and
    it leaves the store as these calls leave it: the loop returns [vs] iff
    [length vs + 1] calls of [next] return the values [vs] and then raise
    [StopIteration]. *)
Theorem loop_collects_successive_nexts fuel p acc σ vs σ' :
  (length vs < fuel)%nat →
  next_loop fuel p acc σ = Some (Ret (acc ++ vs), σ') ↔
  nexts (S (length vs)) p σ = ((Ret <$> vs) ++ [Raise StopIteration], σ').
Proof.
  intros Hfuel. rewrite <- (next_loop_iff_nexts fuel p σ vs σ' Hfuel).
  rewrite next_loop_acc.
  destruct (next_loop fuel p [] σ) as [[[ws|e] σ1]|]; split; intros H;
    simplify_eq; done.
Qed.

Lemma loop_collects_successive_nexts_witness :
  (length [VInt 0; VInt 1; VInt 4] < 4)%nat ∧
  (next_loop 4 1%positive [] (Squares___init__ SqIterator 3 empty_state).2 =
     Some (Ret ([] ++ [VInt 0; VInt 1; VInt 4]), after_three_squares_stop) ↔
   nexts 4 1%positive (Squares___init__ SqIterator 3 empty_state).2 =
     ([Ret (VInt 0); Ret (VInt 1); Ret (VInt 4); Raise StopIteration],
      after_three_squares_stop)).
Proof.
  split; [simpl; lia|].
  apply (loop_collects_successive_nexts 4 1%positive []
           (Squares___init__ SqIterator 3 empty_state).2
           [VInt 0; VInt 1; VInt 4] after_three_squares_stop).
  simpl; lia.
Defined.

(** ** Termination and exhaustion *)

Lemma py_next_Ret_limit x σ v :
  (py_next x σ).1 = Ret v →
  ∃ n i, limit (heap σ) x = Some n ∧ cursor_at (heap σ) x = Some i ∧ i < n.
Proof.
  unfold limit, len_of, cursor_at. run.
  repeat split_code; simpl; intros; simplify_eq;
    eexists _, _; split_and!; try done; lia.
Qed.

Lemma py_next_Ret_remaining x σ v :
  (py_next x σ).1 = Ret v →
  remaining (heap σ) x = S (remaining (heap (py_next x σ).2) x).
Proof.
  intros Hr.
  destruct (py_next_Ret_limit _ _ _ Hr) as (n & i & Hn & Hi & Hlt).
  pose proof (heap_le_limit _ _ _ _ (py_next_heap_le x σ) Hn) as Hn'.
  destruct (py_next_Ret _ _ _ Hr) as (o & j & Hx & Hj & Hh).
  assert (cursor_at (heap (py_next x σ).2) x = Some (i + 1)) as Hi'.
  { rewrite Hh. unfold cursor_at in *. rewrite lookup_insert_eq.
    rewrite Hx in Hi. simpl in *. destruct o; simpl in *; by simplify_eq. }
  unfold remaining. rewrite Hn, Hi, Hn', Hi'. lia.
Qed.

Lemma py_next_Stop_remaining x σ :
  (py_next x σ).1 = Raise StopIteration → remaining (heap σ) x = 0%nat.
Proof.
  intros (n & i & Hn & Hi & Hle)%py_next_StopIteration.
  unfold remaining. rewrite Hn, Hi. lia.
Qed.

Lemma next_loop_total fuel : ∀ σ p acc,
  (remaining (heap σ) p < fuel)%nat →
  ∃ r σ', next_loop fuel p acc σ = Some (r, σ') ∧
    ∀ vs, r = Ret vs →
          length vs = (length acc + remaining (heap σ) p)%nat.
Proof.
  induction fuel as [|fuel IH]; intros σ p acc Hfuel; [lia|].
  cbn [next_loop].
  pose proof (py_next_Ret_remaining p σ) as HR.
  pose proof (py_next_Stop_remaining p σ) as HS.
  destruct (py_next p σ) as [[v|e] σ1]; simpl in *.
  - specialize (HR v eq_refl).
    destruct (IH σ1 p (acc ++ [v])) as (r & σ' & Hloop & Hlen); [lia|].
    exists r, σ'. split; [done|]. intros vs ->.
    rewrite (Hlen vs eq_refl), length_app. simpl. lia.
  - destruct e; eexists _, _; (split; [done|]); intros vs Hvs; simplify_eq.
    rewrite HS by done. lia.
Qed.

(** X11. The loop over [next] terminates on every object of every store:
    fuel above the number of values the producer has left is enough, and
    more fuel does not change the result.  When the loop ends normally it
    has collected exactly that many values. *)
Theorem next_loop_terminates fuel σ p acc :
  (remaining (heap σ) p < fuel)%nat →
  ∃ r σ',
    (∀ fuel', (fuel ≤ fuel')%nat → next_loop fuel' p acc σ = Some (r, σ')) ∧
    ∀ vs, r = Ret vs →
          length vs = (length acc + remaining (heap σ) p)%nat.
Proof.
  intros Hfuel.
  destruct (next_loop_total fuel σ p acc Hfuel) as (r & σ' & Hloop & Hlen).
  exists r, σ'. split; [|done].
  intros fuel' Hle. by apply (next_loop_fuel_mono fuel).
Qed.

Lemma next_loop_terminates_witness :
  (remaining (heap after_two_cities) 2%positive < 3)%nat ∧
  ∃ r σ',
    (∀ fuel', (3 ≤ fuel')%nat →
       next_loop fuel' 2%positive [] after_two_cities = Some (r, σ')) ∧
    ∀ vs, r = Ret vs →
          length vs =
            (length (@nil value) +
             remaining (heap after_two_cities) 2%positive)%nat.
Proof.
  split; [vm_compute; lia|].
  apply (next_loop_terminates 3 after_two_cities 2%positive []).
  vm_compute; lia.
Defined.

(** X13. The traversal of part-1.ipynb lines 1545-1553 terminates on every
    object of every store, whatever its class and state: from some amount
    of fuel on there is a result. *)
Theorem for_loop_terminates σ x :
  ∃ fuel, ∀ fuel', (fuel ≤ fuel')%nat → ∃ res, for_loop fuel' x σ = Some res.
Proof.
  unfold for_loop. destruct (py_iter x σ) as [[it|e] σ1].
  - exists (S (remaining (heap σ1) it)). intros fuel' Hfuel.
    destruct (next_loop_total fuel' σ1 it []) as (r & σ' & -> & _);
      [lia|eauto].
  - exists 0%nat. eauto.
Qed.

Lemma next_loop_ends_exhausted fuel p : ∀ acc σ vs σ',
  next_loop fuel p acc σ = Some (Ret vs, σ') →
  (py_next p σ').1 = Raise StopIteration.
Proof.
  induction fuel as [|fuel IH]; intros acc σ vs σ' Hloop; [done|].
  cbn [next_loop] in Hloop.
  pose proof (py_next_Raise p σ StopIteration) as HE.
  destruct (py_next p σ) as [[v|e] σ1] eqn:Hn; simpl in *; [by eapply IH|].
  destruct e; simplify_eq.
  rewrite (py_next_outcome_heap p σ' σ) by auto. by rewrite Hn.
Qed.

Lemma frame_defines o o' :
  frame o = frame o' →
  defines___next__ o = defines___next__ o' ∧
  defines___iter__ o = defines___iter__ o' ∧
  iter_trace o = iter_trace o'.
Proof. destruct o, o'; simpl; intros; simplify_eq; done. Qed.

Lemma py_iter_producer σ p o :
  heap σ !! p = Some o →
  defines___next__ o = true →
  defines___iter__ o = true →
  py_iter p σ = (Ret p, State (heap σ) (stdout σ ++ iter_trace o)).
Proof.
  intros Hp Hnext Hiter. run. rewrite Hp. simpl. rewrite Hiter.
  destruct o as [|d ? ?| | |[] ? ?]; simpl in *; try done; rewrite Hp; simpl;
    try (destruct d; simpl in *; try done);
    rewrite ?app_nil_r, ?state_eta; done.
Qed.

(** X7. Once a traversal of a producer has run to its end, the producer is
    used up: whatever the program does afterwards, every later traversal
    of the same object returns the empty list. *)
Theorem traversal_exhausts σ p o fuel vs σ' :
  heap σ !! p = Some o →
  defines___next__ o = true →
  defines___iter__ o = true →
  traverse fuel p σ = Some (Ret vs, σ') →
  ∀ os fuel', (0 < fuel')%nat →
    ∃ σ'', traverse fuel' p (run_ops os σ') = Some (Ret [], σ'').
Proof.
  intros Hp Hnext Hiter Htr os fuel' Hfuel'.
  unfold traverse, for_loop in Htr. rewrite Hp, Hiter in Htr.
  rewrite (py_iter_producer _ _ _ Hp Hnext Hiter) in Htr.
  pose proof (next_loop_ends_exhausted _ _ _ _ _ _ Htr) as Hstop.
  pose proof (run_ops_heap_le os σ') as Hle.
  pose proof (exhausted_stable _ _ _ Hle Hstop) as Hstop'.
  set (σ2 := run_ops os σ') in *.
  assert (∃ o2, heap σ2 !! p = Some o2 ∧ frame o = frame o2) as (o2 & Hp2 & Hf).
  { assert (heap_le (heap σ) (heap σ')) as Hle0.
    { assert (∀ fuel acc σa r σb, next_loop fuel p acc σa = Some (r, σb) →
                heap_le (heap σa) (heap σb)) as Hloop.
      { clear. induction fuel as [|fuel IH]; intros acc σa r σb H; [done|].
        cbn [next_loop] in H. pose proof (py_next_heap_le p σa) as Hs.
        destruct (py_next p σa) as [[v|e] σ1]; simpl in *.
        - eapply heap_le_trans; [exact Hs|by eapply IH].
        - destruct e; by simplify_eq. }
      apply Hloop in Htr. exact Htr. }
    destruct (heap_le_trans _ _ _ Hle0 Hle _ _ Hp) as (o2 & Hp2 & Hf & _).
    eauto. }
  destruct (frame_defines _ _ Hf) as (Hn2 & Hi2 & _).
  unfold traverse, for_loop. rewrite Hp2, <- Hi2, Hiter.
  rewrite (py_iter_producer _ _ _ Hp2); [|congruence..].
  destruct fuel' as [|fuel']; [lia|]. cbn [next_loop].
  set (σ3 := State _ _).
  assert ((py_next p σ3).1 = Raise StopIteration) as Hstop3
    by (by rewrite (py_next_outcome_heap p σ3 σ2)).
  destruct (py_next p σ3) as [r σ4]. simpl in Hstop3. subst r. eauto.
Qed.

Lemma traversal_exhausts_witness :
  heap (Squares___init__ SqIterator 3 empty_state).2 !! 1%positive =
    Some (OSquares SqIterator 3 0) ∧
  defines___next__ (OSquares SqIterator 3 0) = true ∧
  defines___iter__ (OSquares SqIterator 3 0) = true ∧
  traverse 4 1%positive (Squares___init__ SqIterator 3 empty_state).2 =
    Some (Ret [VInt 0; VInt 1; VInt 4], after_three_squares_stop) ∧
  ∀ os fuel', (0 < fuel')%nat →
    ∃ σ'', traverse fuel' 1%positive (run_ops os after_three_squares_stop) =
             Some (Ret [], σ'').
Proof.
  split; [reflexivity|]. split; [reflexivity|]. split; [reflexivity|].
  split; [reflexivity|].
  apply (traversal_exhausts (Squares___init__ SqIterator 3 empty_state).2
           1%positive (OSquares SqIterator 3 0) 4 [VInt 0; VInt 1; VInt 4]
           after_three_squares_stop); reflexivity.
Defined.

(** ** Squares(length) *)

Lemma squares_from_nil i n : n ≤ i → squares_from i n = [].
Proof. intros Hle. unfold squares_from. by rewrite seqZ_nil by lia. Qed.

Lemma squares_from_cons i n :
  i < n → squares_from i n = i ^ 2 :: squares_from (i + 1) n.
Proof.
  intros Hlt. unfold squares_from. rewrite (seqZ_cons i) by lia. simpl.
  do 3 f_equal; lia.
Qed.

Lemma Squares___next___spec σ p d n i :
  heap σ !! p = Some (OSquares d n i) →
  Squares___next__ p σ =
    if i >=? n then
      (Raise StopIteration,
       State (heap σ) (stdout σ ++ next_trace (OSquares d n i)))
    else
      (Ret (VInt (i ^ 2)),
       State (<[p := OSquares d n (i + 1)]> (heap σ))
             (stdout σ ++ next_trace (OSquares d n i))).
Proof.
  intros Hp. run. rewrite Hp. simpl.
  destruct (sq_traced d), (i >=? n); simpl;
    rewrite ?app_nil_r, ?state_eta; done.
Qed.

Lemma py_next_Squares σ p d n i :
  heap σ !! p = Some (OSquares d n i) → sq_has_next d = true →
  py_next p σ = Squares___next__ p σ.
Proof.
  intros Hp Hd. unfold py_next at 1, mbind, M_bind, bind, get_obj.
  by rewrite Hp, Hd.
Qed.


Lemma next_loop_Squares p d n (r : nat) :
  ∀ σ i acc fuel,
    heap σ !! p = Some (OSquares d n i) →
    sq_has_next d = true →
    Z.to_nat (n - i) = r →
    (r < fuel)%nat →
    next_loop fuel p acc σ =
      Some (Ret (acc ++ (VInt <$> squares_from i n)),
            State (<[p := OSquares d n (i `max` n)]> (heap σ))
                  (stdout σ ++
                   concat (replicate (S r) (next_trace (OSquares d n i))))).
Proof.
  induction r as [|r IH]; intros σ i acc fuel Hp Hd Hr Hfuel;
    (destruct fuel as [|fuel]; [lia|]); cbn [next_loop];
    rewrite (py_next_Squares _ _ _ _ _ Hp Hd),
            (Squares___next___spec _ _ _ _ _ Hp).
  - destruct (Z.geb_spec i n); [|lia].
    rewrite squares_from_nil by lia. simpl. rewrite !app_nil_r.
    rewrite insert_id; [done|]. rewrite Hp. do 2 f_equal. lia.
  - destruct (Z.geb_spec i n); [lia|].
    rewrite (IH _ (i + 1)); simpl.
    + rewrite insert_insert_eq, (squares_from_cons i), <- !app_assoc by lia.
      simpl. do 5 f_equal. lia.
    + by rewrite lookup_insert_eq.
    + done.
    + lia.
    + lia.
Qed.


Lemma length_squares_from i n : length (squares_from i n) = Z.to_nat (n - i).
Proof. unfold squares_from. by rewrite length_fmap, length_seqZ. Qed.

(** X1. A [Squares] of length [n] whose cursor is at [i] returns the squares
    of [i], [i+1], ..., [n-1] at successive [next] calls and then raises
    [StopIteration], with the cursor left at [n] (or at [i] when it was
    already past [n]).  With [n <= i], as for [Squares(0)] or a negative
    length, the first call already raises [StopIteration]. *)
Theorem Squares_yields_squares σ p d n i :
  heap σ !! p = Some (OSquares d n i) →
  sq_has_next d = true →
  (nexts (S (Z.to_nat (n - i))) p σ).1 =
    ((λ z, Ret (VInt z)) <$> squares_from i n) ++ [Raise StopIteration] ∧
  heap (nexts (S (Z.to_nat (n - i))) p σ).2 =
    <[p := OSquares d n (i `max` n)]> (heap σ) ∧
  (n ≤ i → (py_next p σ).1 = Raise StopIteration).
Proof.
  intros Hp Hd.
  pose proof (next_loop_Squares p d n _ σ i [] (S (Z.to_nat (n - i)))
                Hp Hd eq_refl (Nat.lt_succ_diag_r _)) as Hloop.
  rewrite app_nil_l in Hloop.
  apply next_loop_iff_nexts in Hloop;
    [|rewrite length_fmap, length_squares_from; lia].
  rewrite length_fmap, length_squares_from in Hloop.
  rewrite Hloop. simpl. split_and!; [|done|].
  - by rewrite <- list_fmap_compose.
  - intros Hle.
    rewrite (py_next_Squares _ _ _ _ _ Hp Hd),
            (Squares___next___spec _ _ _ _ _ Hp).
    by destruct (Z.geb_spec i n); [|lia].
Qed.

Lemma Squares_yields_squares_witness :
  heap (Squares___init__ SqDunderLen 3 empty_state).2 !! 1%positive =
    Some (OSquares SqDunderLen 3 0) ∧
  sq_has_next SqDunderLen = true ∧
  (nexts (S (Z.to_nat (3 - 0))) 1%positive
     (Squares___init__ SqDunderLen 3 empty_state).2).1 =
    ((λ z, Ret (VInt z)) <$> squares_from 0 3) ++ [Raise StopIteration] ∧
  heap (nexts (S (Z.to_nat (3 - 0))) 1%positive
          (Squares___init__ SqDunderLen 3 empty_state).2).2 =
    <[1%positive := OSquares SqDunderLen 3 (0 `max` 3)]>
      (heap (Squares___init__ SqDunderLen 3 empty_state).2) ∧
  (3 ≤ 0 →
   (py_next 1%positive (Squares___init__ SqDunderLen 3 empty_state).2).1 =
     Raise StopIteration).
Proof.
  split; [reflexivity|]. split; [reflexivity|].
  apply (Squares_yields_squares
           (Squares___init__ SqDunderLen 3 empty_state).2 1%positive
           SqDunderLen 3 0); reflexivity.
Defined.





(** X4. A [for] loop over a [Squares] that defines [__iter__] yields the
    squares of [i], ..., [n-1], where [i] is the cursor at the start, and
    leaves the cursor at the end; the printing definition writes
    'calling __iter__' once and 'calling __next__' once per value and once
    more for the end.  A [Squares] without [__iter__] is not iterable: the
    loop raises [TypeError] and the store is not touched. *)
Theorem Squares_for_loop σ p d n i fuel :
  heap σ !! p = Some (OSquares d n i) →
  sq_has_next d = true →
  (Z.to_nat (n - i) < fuel)%nat →
  traverse fuel p σ =
    if sq_has_iter d then
      Some (Ret (VInt <$> squares_from i n),
            State (<[p := OSquares d n (i `max` n)]> (heap σ))
                  (stdout σ ++
                   (if sq_traced d then
                      "calling __iter__" ::
                      replicate (S (Z.to_nat (n - i))) "calling __next__"
                    else [])))
    else Some (Raise TypeError, σ).
Proof.
  intros Hp Hd Hfuel. unfold traverse, for_loop. rewrite Hp. simpl.
  destruct (sq_has_iter d) eqn:Hiter; [|done].
  rewrite (py_iter_producer _ _ _ Hp); [|done..].
  set (σ1 := State _ _).
  rewrite (next_loop_Squares p d n _ σ1 i [] fuel Hp Hd eq_refl Hfuel).
  unfold σ1. simpl. rewrite <- app_assoc. do 4 f_equal.
  destruct (sq_traced d); simpl.
  - by rewrite concat_replicate_singleton.
  - generalize (Z.to_nat (n - i)) as r.
    induction r as [|r IHr]; simpl in *; done.
Qed.

Lemma Squares_for_loop_witness :
  heap (Squares___init__ SqIteratorTr 5 empty_state).2 !! 1%positive =
    Some (OSquares SqIteratorTr 5 0) ∧
  sq_has_next SqIteratorTr = true ∧
  (Z.to_nat (5 - 0) < 6)%nat ∧
  traverse 6 1%positive (Squares___init__ SqIteratorTr 5 empty_state).2 =
    if sq_has_iter SqIteratorTr then
      Some (Ret (VInt <$> squares_from 0 5),
            State (<[1%positive := OSquares SqIteratorTr 5 (0 `max` 5)]>
                     (heap (Squares___init__ SqIteratorTr 5 empty_state).2))
                  (stdout (Squares___init__ SqIteratorTr 5 empty_state).2 ++
                   (if sq_traced SqIteratorTr then
                      "calling __iter__" ::
                      replicate (S (Z.to_nat (5 - 0))) "calling __next__"
                    else [])))
    else Some (Raise TypeError,
               (Squares___init__ SqIteratorTr 5 empty_state).2).
Proof.
  split; [reflexivity|]. split; [reflexivity|]. split; [simpl; lia|].
  apply (Squares_for_loop (Squares___init__ SqIteratorTr 5 empty_state).2
           1%positive SqIteratorTr 5 0 6); [reflexivity|reflexivity|simpl; lia].
Defined.

(** X14. The unbounded [Squares] has no end: the loop of lines 387-394,
    which stops at [StopIteration], never stops on it, whatever fuel it is
    given. *)
Theorem unbounded_loop_never_ends fuel : ∀ σ p i acc,
  heap σ !! p = Some (OSquaresInf i) →
  next__loop fuel p acc σ = None.
Proof.
  induction fuel as [|fuel IH]; intros σ p i acc Hp; [done|].
  cbn [next__loop].
  assert (call_next_ p σ = SquaresInf_next_ p σ) as ->.
  { unfold call_next_ at 1, mbind, M_bind, bind, get_obj. by rewrite Hp. }
  rewrite (SquaresInf_next__spec _ _ _ Hp).
  apply (IH _ p (i + 1)). simpl. apply lookup_insert_eq.
Qed.

Lemma unbounded_loop_never_ends_witness :
  heap (SquaresInf___init__ empty_state).2 !! 1%positive =
    Some (OSquaresInf 0) ∧
  next__loop 100 1%positive [] (SquaresInf___init__ empty_state).2 = None.
Proof.
  split; [reflexivity|].
  apply (unbounded_loop_never_ends 100 (SquaresInf___init__ empty_state).2
           1%positive 0 []). reflexivity.
Defined.

(** ** The self-iterating Cities (part-3.ipynb line 63) *)

Lemma CitiesSelf_next_spec σ p l (k : nat) :
  heap σ !! p = Some (OCitiesSelf l (Z.of_nat k)) →
  py_next p σ =
    match l !! k with
    | Some x =>
        (Ret (VStr x),
         State (<[p := OCitiesSelf l (Z.of_nat k + 1)]> (heap σ)) (stdout σ))
    | None => (Raise StopIteration, σ)
    end.
Proof.
  intros Hp. run. rewrite Hp. simpl. rewrite Hp. simpl.
  destruct (l !! k) as [x|] eqn:Hk.
  - pose proof (lookup_lt_Some _ _ _ Hk).
    destruct (Z.geb_spec (Z.of_nat k) (Z.of_nat (length l))); [lia|].
    simpl. by rewrite (list_getitem_nat _ _ _ Hk).
  - apply lookup_ge_None in Hk.
    by destruct (Z.geb_spec (Z.of_nat k) (Z.of_nat (length l))); [|lia].
Qed.

Lemma next_loop_CitiesSelf p l (r : nat) :
  ∀ σ (k : nat) acc fuel,
    heap σ !! p = Some (OCitiesSelf l (Z.of_nat k)) →
    (length l - k)%nat = r →
    (r < fuel)%nat →
    next_loop fuel p acc σ =
      Some (Ret (acc ++ (VStr <$> drop k l)),
            State (<[p := OCitiesSelf l (Z.of_nat (k `max` length l))]>
                     (heap σ))
                  (stdout σ)).
Proof.
  induction r as [|r IH]; intros σ k acc fuel Hp Hr Hfuel;
    (destruct fuel as [|fuel]; [lia|]); cbn [next_loop];
    rewrite (CitiesSelf_next_spec _ _ _ _ Hp).
  - rewrite (lookup_ge_None_2 l k) by lia.
    rewrite drop_ge by lia. rewrite app_nil_r.
    rewrite insert_id, state_eta; [done|]. rewrite Hp. do 3 f_equal. lia.
  - destruct (lookup_lt_is_Some_2 l k) as [x Hx]; [lia|]. rewrite Hx.
    rewrite (IH _ (S k)); simpl.
    + rewrite insert_insert_eq, (drop_S _ _ _ Hx), <- !app_assoc.
      do 6 f_equal. lia.
    + rewrite lookup_insert_eq. do 2 f_equal. lia.
    + lia.
    + lia.
Qed.

(** X5. The [Cities] of line 63 is its own iterator.  A [for] loop over it
    yields the names from the cursor on, writes nothing, creates no object
    and leaves the cursor at the end of the list; a loop over the object
    afterwards yields nothing. *)
Theorem CitiesSelf_for_loop σ p l (k : nat) fuel :
  heap σ !! p = Some (OCitiesSelf l (Z.of_nat k)) →
  (length l - k < fuel)%nat →
  ∃ σ',
    traverse fuel p σ = Some (Ret (VStr <$> drop k l), σ') ∧
    heap σ' = <[p := OCitiesSelf l (Z.of_nat (k `max` length l))]> (heap σ) ∧
    stdout σ' = stdout σ ∧
    ∃ σ'', traverse fuel p σ' = Some (Ret [], σ'').
Proof.
  intros Hp Hfuel.
  assert (∀ σ0 (j : nat),
    heap σ0 !! p = Some (OCitiesSelf l (Z.of_nat j)) →
    (length l - j < fuel)%nat →
    traverse fuel p σ0 =
      Some (Ret (VStr <$> drop j l),
            State (<[p := OCitiesSelf l (Z.of_nat (j `max` length l))]>
                     (heap σ0)) (stdout σ0))) as Htr.
  { intros σ0 j Hp0 Hf0. unfold traverse, for_loop. rewrite Hp0. simpl.
    rewrite (py_iter_producer _ _ _ Hp0); [|done..]. simpl.
    rewrite app_nil_r, state_eta.
    by rewrite (next_loop_CitiesSelf p l _ σ0 j [] fuel Hp0 eq_refl Hf0). }
  rewrite (Htr σ k Hp Hfuel). eexists. split_and!; [done..|].
  set (σ' := State _ _).
  rewrite (Htr σ' (k `max` length l)%nat).
  - rewrite drop_ge by lia. eauto.
  - unfold σ'. simpl. apply lookup_insert_eq.
  - lia.
Qed.

Lemma CitiesSelf_for_loop_witness :
  heap (CitiesSelf___init__ empty_state).2 !! 1%positive =
    Some (OCitiesSelf ["Paris"; "Berlin"; "Rome"; "Madrid"; "London"]
            (Z.of_nat 0)) ∧
  (length ["Paris"; "Berlin"; "Rome"; "Madrid"; "London"] - 0 < 6)%nat ∧
  ∃ σ',
    traverse 6 1%positive (CitiesSelf___init__ empty_state).2 =
      Some (Ret (VStr <$>
                 drop 0 ["Paris"; "Berlin"; "Rome"; "Madrid"; "London"]), σ') ∧
    heap σ' =
      <[1%positive :=
          OCitiesSelf ["Paris"; "Berlin"; "Rome"; "Madrid"; "London"]
            (Z.of_nat
               (0 `max`
                length ["Paris"; "Berlin"; "Rome"; "Madrid"; "London"]))]>
        (heap (CitiesSelf___init__ empty_state).2) ∧
    stdout σ' = stdout (CitiesSelf___init__ empty_state).2 ∧
    ∃ σ'', traverse 6 1%positive σ' = Some (Ret [], σ'').
Proof.
  split; [reflexivity|]. split; [simpl; lia|].
  apply (CitiesSelf_for_loop (CitiesSelf___init__ empty_state).2 1%positive
           ["Paris"; "Berlin"; "Rome"; "Madrid"; "London"] 0 6);
    [reflexivity|simpl; lia].
Defined.

(** ** Cities and CityIterator *)

Lemma nexts_CityIterator_partial tr c d l (j : nat) :
  ∀ σ p (k : nat),
    heap σ !! p = Some (OCityIterator tr c (Z.of_nat k)) →
    heap σ !! c = Some (OCities d l) →
    (k + j ≤ length l)%nat →
    (nexts j p σ).1 = (λ s, Ret (VStr s)) <$> take j (drop k l) ∧
    heap (nexts j p σ).2 =
      <[p := OCityIterator tr c (Z.of_nat (k + j))]> (heap σ).
Proof.
  induction j as [|j IH]; intros σ p k Hp Hc Hlen.
  - simpl. split; [done|]. rewrite insert_id; [done|].
    rewrite Hp. do 3 f_equal. lia.
  - destruct (lookup_lt_is_Some_2 l k) as [x Hx]; [lia|].
    pose proof (CityIterator_ne _ _ _ _ _ _ _ _ Hp Hc) as Hne.
    rewrite calls_S, (CityIterator_next_item _ _ _ _ _ _ _ _ Hp Hc Hx).
    set (σ' := State _ _).
    destruct (IH σ' p (S k)) as [IH1 IH2].
    + unfold σ'; simpl. rewrite lookup_insert_eq. do 2 f_equal. lia.
    + unfold σ'; simpl. by rewrite lookup_insert_ne.
    + lia.
    + destruct (nexts j p σ') as [rs σ'']. simpl in *. subst rs. split.
      * by rewrite (drop_S _ _ _ Hx).
      * rewrite IH2. unfold σ'; simpl. rewrite insert_insert_eq.
        do 3 f_equal. lia.
Qed.

(** X6. [CityIterator(c)] can be built by hand over a [Cities] of any
    definition, also one without [__iter__] (line 177): it is a new object
    with cursor 0 and nothing else changes.  After [j] calls of [next] on
    it, which return the first [j] names, a [for] loop over it yields the
    remaining names.  The [Cities] of line 177 itself is not iterable: a
    loop over it raises [TypeError]. *)
Theorem CityIterator_by_hand σ c d l tr (j : nat) fuel :
  heap σ !! c = Some (OCities d l) →
  (j ≤ length l)%nat →
  (length l - j < fuel)%nat →
  ∃ p σ1,
    CityIterator___init__ tr c σ = (Ret p, σ1) ∧
    heap σ !! p = None ∧
    heap σ1 = <[p := OCityIterator tr c 0]> (heap σ) ∧
    (nexts j p σ1).1 = (λ s, Ret (VStr s)) <$> take j l ∧
    (∃ σ2, traverse fuel p (nexts j p σ1).2 =
             Some (Ret (VStr <$> drop j l), σ2)) ∧
    (d = CitiesLen → traverse fuel c σ = Some (Raise TypeError, σ)).
Proof.
  intros Hc Hj Hfuel. rewrite CityIterator_init_spec.
  pose proof (fresh_heap_None (heap σ)) as Hfresh.
  set (p := fresh (dom (heap σ))) in *. set (σ1 := State _ _).
  assert (p ≠ c) as Hne by congruence.
  assert (heap σ1 !! p = Some (OCityIterator tr c (Z.of_nat 0))) as Hp1
    by (unfold σ1; simpl; apply lookup_insert_eq).
  assert (heap σ1 !! c = Some (OCities d l)) as Hc1
    by (unfold σ1; simpl; by rewrite lookup_insert_ne).
  destruct (nexts_CityIterator_partial tr c d l j σ1 p 0 Hp1 Hc1)
    as [Hout Hheap]; [lia|].
  exists p, σ1. split_and!; [done..| |].
  - set (σ2 := (nexts j p σ1).2) in *.
    assert (heap σ2 !! p = Some (OCityIterator tr c (Z.of_nat j))) as Hp2
      by (rewrite Hheap; apply lookup_insert_eq).
    assert (heap σ2 !! c = Some (OCities d l)) as Hc2
      by (rewrite Hheap; by rewrite lookup_insert_ne).
    unfold traverse, for_loop. rewrite Hp2. simpl.
    rewrite (py_iter_producer _ _ _ Hp2); [|done..].
    set (σ3 := State _ _).
    rewrite (next_loop_CityIterator tr c d l (length l - j) σ3 p j [] fuel);
      [eauto|done|done|lia|done].
  - intros ->. unfold traverse. by rewrite Hc.
Qed.

Lemma CityIterator_by_hand_witness :
  heap (after_Cities CitiesLen) !! 1%positive =
    Some (OCities CitiesLen
            ["New York"; "Newark"; "New Delhi"; "Newcastle"]) ∧
  (1 ≤ length ["New York"; "Newark"; "New Delhi"; "Newcastle"])%nat ∧
  (length ["New York"; "Newark"; "New Delhi"; "Newcastle"] - 1 < 4)%nat ∧
  ∃ p σ1,
    CityIterator___init__ false 1%positive (after_Cities CitiesLen) =
      (Ret p, σ1) ∧
    heap (after_Cities CitiesLen) !! p = None ∧
    heap σ1 = <[p := OCityIterator false 1 0]> (heap (after_Cities CitiesLen)) ∧
    (nexts 1 p σ1).1 =
      (λ s, Ret (VStr s)) <$>
        take 1 ["New York"; "Newark"; "New Delhi"; "Newcastle"] ∧
    (∃ σ2, traverse 4 p (nexts 1 p σ1).2 =
             Some (Ret (VStr <$>
                        drop 1 ["New York"; "Newark"; "New Delhi";
                                "Newcastle"]), σ2)) ∧
    (CitiesLen = CitiesLen →
     traverse 4 1%positive (after_Cities CitiesLen) =
       Some (Raise TypeError, after_Cities CitiesLen)).
Proof.
  split; [reflexivity|]. split; [simpl; lia|]. split; [simpl; lia|].
  apply (CityIterator_by_hand (after_Cities CitiesLen) 1%positive CitiesLen
           ["New York"; "Newark"; "New Delhi"; "Newcastle"] false 1 4);
    [reflexivity|simpl; lia|simpl; lia].
Defined.

(** X8. Iterating never uses up a [Cities] container.  Whatever the program
    has done before (any operations on any objects, the container and its
    iterators included), a [for] loop over a [Cities] with [__iter__]
    yields the whole list in order.  It creates exactly one object, the
    [CityIterator] it consumes, and leaves every other object as it was. *)
Theorem Cities_always_traversable σ c d l os fuel :
  heap σ !! c = Some (OCities d l) →
  cities_has_iter d = true →
  (length l < fuel)%nat →
  ∃ σ',
    traverse fuel c (run_ops os σ) = Some (Ret (VStr <$> l), σ') ∧
    heap σ' =
      <[fresh (dom (heap (run_ops os σ))) :=
          OCityIterator true c (Z.of_nat (length l))]> (heap (run_ops os σ)) ∧
    (∀ q o, heap (run_ops os σ) !! q = Some o → heap σ' !! q = Some o).
Proof.
  intros Hc Hd Hfuel.
  pose proof (heap_le_OCities _ _ _ _ _ (run_ops_heap_le os σ) Hc) as Hc'.
  rewrite (traverse_Cities _ _ _ _ _ Hc' Hd Hfuel).
  eexists. split_and!; [done..|]. simpl.
  intros q o Hq. rewrite lookup_insert_ne; [done|].
  intros <-. by rewrite fresh_heap_None in Hq.
Qed.

Lemma Cities_always_traversable_witness :
  heap (after_Cities CitiesIterable) !! 1%positive =
    Some (OCities CitiesIterable
            ["New York"; "Newark"; "New Delhi"; "Newcastle"]) ∧
  cities_has_iter CitiesIterable = true ∧
  (length ["New York"; "Newark"; "New Delhi"; "Newcastle"] < 5)%nat ∧
  ∃ σ',
    traverse 5 1%positive
      (run_ops [OpIter 1%positive; OpNext 2%positive]
         (after_Cities CitiesIterable)) =
      Some (Ret (VStr <$> ["New York"; "Newark"; "New Delhi"; "Newcastle"]),
            σ') ∧
    heap σ' =
      <[fresh (dom (heap (run_ops [OpIter 1%positive; OpNext 2%positive]
                            (after_Cities CitiesIterable)))) :=
          OCityIterator true 1
            (Z.of_nat
               (length ["New York"; "Newark"; "New Delhi"; "Newcastle"]))]>
        (heap (run_ops [OpIter 1%positive; OpNext 2%positive]
                 (after_Cities CitiesIterable))) ∧
    (∀ q o,
       heap (run_ops [OpIter 1%positive; OpNext 2%positive]
               (after_Cities CitiesIterable)) !! q = Some o →
       heap σ' !! q = Some o).
Proof.
  split; [reflexivity|]. split; [reflexivity|]. split; [simpl; lia|].
  apply (Cities_always_traversable (after_Cities CitiesIterable) 1%positive
           CitiesIterable ["New York"; "Newark"; "New Delhi"; "Newcastle"]
           [OpIter 1%positive; OpNext 2%positive] 5);
    [reflexivity|reflexivity|simpl; lia].
Defined.

(** X9. [len(c)] and [c[s]] on a [Cities] do not depend on any iterator:
    after any operations of the program they give what they gave before.
    [c[s]] changes no object, also when it raises, and writes its one line
    'getting item...' either way. *)
Theorem Cities_access_stable σ c d l s os :
  heap σ !! c = Some (OCities d l) →
  cities_has_getitem d = true →
  (py_len c (run_ops os σ)).1 = (py_len c σ).1 ∧
  (py_getitem c s (run_ops os σ)).1 = (py_getitem c s σ).1 ∧
  heap (py_getitem c s σ).2 = heap σ ∧
  stdout (py_getitem c s σ).2 = stdout σ ++ ["getting item..."].
Proof.
  intros Hc Hd.
  pose proof (heap_le_OCities _ _ _ _ _ (run_ops_heap_le os σ) Hc) as Hc'.
  rewrite (py_len_Cities _ _ _ _ Hc'), (py_len_Cities _ _ _ _ Hc).
  rewrite (Cities_getitem_spec _ _ _ _ s Hc' Hd),
          (Cities_getitem_spec _ _ _ _ s Hc Hd).
  done.
Qed.

Lemma Cities_access_stable_witness :
  heap (after_Cities CitiesSequence) !! 1%positive =
    Some (OCities CitiesSequence
            ["New York"; "Newark"; "New Delhi"; "Newcastle"]) ∧
  cities_has_getitem CitiesSequence = true ∧
  (py_len 1%positive
     (run_ops [OpIter 1%positive; OpNext 2%positive]
        (after_Cities CitiesSequence))).1 =
    (py_len 1%positive (after_Cities CitiesSequence)).1 ∧
  (py_getitem 1%positive 0
     (run_ops [OpIter 1%positive; OpNext 2%positive]
        (after_Cities CitiesSequence))).1 =
    (py_getitem 1%positive 0 (after_Cities CitiesSequence)).1 ∧
  heap (py_getitem 1%positive 0 (after_Cities CitiesSequence)).2 =
    heap (after_Cities CitiesSequence) ∧
  stdout (py_getitem 1%positive 0 (after_Cities CitiesSequence)).2 =
    stdout (after_Cities CitiesSequence) ++ ["getting item..."].
Proof.
  split; [reflexivity|]. split; [reflexivity|].
  apply (Cities_access_stable (after_Cities CitiesSequence) 1%positive
           CitiesSequence ["New York"; "Newark"; "New Delhi"; "Newcastle"]
           0 [OpIter 1%positive; OpNext 2%positive]); reflexivity.
Defined.

(** X10. On the [Cities] of line 862 iteration and indexing agree: the
    value that call number [k+1] of [next] returns on a new iterator is
    [cities[k]], for every position [k] below the length. *)
Theorem iteration_agrees_with_indexing σ c d l (k : nat) :
  heap σ !! c = Some (OCities d l) →
  cities_has_iter d = true →
  cities_has_getitem d = true →
  (k < length l)%nat →
  ∃ p σ1,
    py_iter c σ = (Ret p, σ1) ∧
    (nexts (S k) p σ1).1 !! k = Some (py_getitem c (Z.of_nat k) σ).1.
Proof.
  intros Hc Hiter Hget Hk.
  rewrite (Cities_iter_spec _ _ _ _ Hc Hiter).
  pose proof (fresh_heap_None (heap σ)) as Hfresh.
  set (p := fresh (dom (heap σ))) in *. set (σ1 := State _ _).
  assert (p ≠ c) as Hne by congruence.
  assert (heap σ1 !! p = Some (OCityIterator true c (Z.of_nat 0))) as Hp1
    by (unfold σ1; simpl; apply lookup_insert_eq).
  assert (heap σ1 !! c = Some (OCities d l)) as Hc1
    by (unfold σ1; simpl; by rewrite lookup_insert_ne).
  destruct (nexts_CityIterator_partial true c d l (S k) σ1 p 0 Hp1 Hc1)
    as [Hout _]; [lia|].
  exists p, σ1. split; [done|].
  rewrite Hout, (Cities_getitem_spec _ _ _ _ _ Hc Hget). simpl.
  destruct (lookup_lt_is_Some_2 l k) as [x Hx]; [lia|].
  rewrite (list_getitem_nat _ _ _ Hx).
  change (drop 0 l) with l.
  rewrite list_lookup_fmap, lookup_take_lt by lia. by rewrite Hx.
Qed.

Lemma iteration_agrees_with_indexing_witness :
  heap (after_Cities CitiesSequence) !! 1%positive =
    Some (OCities CitiesSequence
            ["New York"; "Newark"; "New Delhi"; "Newcastle"]) ∧
  cities_has_iter CitiesSequence = true ∧
  cities_has_getitem CitiesSequence = true ∧
  (2 < length ["New York"; "Newark"; "New Delhi"; "Newcastle"])%nat ∧
  ∃ p σ1,
    py_iter 1%positive (after_Cities CitiesSequence) = (Ret p, σ1) ∧
    (nexts 3 p σ1).1 !! 2%nat =
      Some (py_getitem 1%positive (Z.of_nat 2)
              (after_Cities CitiesSequence)).1.
Proof.
  split; [reflexivity|]. split; [reflexivity|]. split; [reflexivity|].
  split; [simpl; lia|].
  apply (iteration_agrees_with_indexing (after_Cities CitiesSequence)
           1%positive CitiesSequence
           ["New York"; "Newark"; "New Delhi"; "Newcastle"] 2);
    [reflexivity|reflexivity|reflexivity|simpl; lia].
Defined.

Lemma py_len_raises x σ e :
  (py_len x σ).1 = Raise e → e ≠ StopIteration.
Proof. run_all; intros; by simplify_eq. Qed.

Lemma py_len_outcome_heap x σ1 σ2 :
  heap σ1 = heap σ2 → (py_len x σ1).1 = (py_len x σ2).1.
Proof.
  destruct σ1 as [h1 o1], σ2 as [h2 o2]; simpl; intros ->.
  run_all; done.
Qed.

Lemma CityIterator_next_len_error σ p tr x i e :
  heap σ !! p = Some (OCityIterator tr x i) →
  (py_len x σ).1 = Raise e →
  (py_next p σ).1 = Raise e.
Proof.
  intros Hp Hlen.
  unfold py_next, CityIterator___next__, mbind, M_bind, bind, get_obj.
  rewrite Hp. simpl. rewrite Hp. simpl.
  destruct tr; simpl;
    match goal with |- context [py_len x ?s] =>
      pose proof (py_len_outcome_heap x s σ eq_refl) as Hsame;
      destruct (py_len x s) as [r s'] end;
    simpl in *; rewrite Hlen in Hsame; by subst r.
Qed.

(** X15. [CityIterator.__init__] does not look at its argument: the
    failure of a wrong one shows only at [next].  When [len] raises on the
    wrapped object (it has no [__len__], or a negative one), [next] raises
    the same exception and the cursor stays where it was, and a [for] loop
    over the iterator ends with that exception. *)
Theorem CityIterator_len_error σ p tr x i e fuel :
  heap σ !! p = Some (OCityIterator tr x i) →
  (py_len x σ).1 = Raise e →
  (0 < fuel)%nat →
  (py_next p σ).1 = Raise e ∧
  heap (py_next p σ).2 = heap σ ∧
  ∃ σ', traverse fuel p σ = Some (Raise e, σ') ∧ heap σ' = heap σ.
Proof.
  intros Hp Hlen Hfuel.
  pose proof (CityIterator_next_len_error _ _ _ _ _ _ Hp Hlen) as Hr.
  split_and!; [done|by apply (py_next_Raise _ _ e)|].
  unfold traverse, for_loop. rewrite Hp. simpl.
  rewrite (py_iter_producer _ _ _ Hp); [|done..].
  set (σ1 := State _ _).
  assert ((py_len x σ1).1 = Raise e) as Hlen1
    by (by rewrite (py_len_outcome_heap x σ1 σ)).
  pose proof (CityIterator_next_len_error σ1 _ _ _ _ _ Hp Hlen1) as Hr1.
  pose proof (py_next_Raise p σ1 e Hr1) as Hh1.
  destruct fuel as [|fuel]; [lia|]. cbn [next_loop].
  destruct (py_next p σ1) as [r σ2]. simpl in *. subst r.
  pose proof (py_len_raises _ _ _ Hlen) as Hne.
  destruct e; try done; eauto.
Qed.

Lemma CityIterator_len_error_witness :
  heap (CityIterator___init__ false 1%positive
          (CitiesSelf___init__ empty_state).2).2 !! 2%positive =
    Some (OCityIterator false 1 0) ∧
  (py_len 1%positive
     (CityIterator___init__ false 1%positive
        (CitiesSelf___init__ empty_state).2).2).1 = Raise TypeError ∧
  (0 < 1)%nat ∧
  (py_next 2%positive
     (CityIterator___init__ false 1%positive
        (CitiesSelf___init__ empty_state).2).2).1 = Raise TypeError ∧
  heap (py_next 2%positive
          (CityIterator___init__ false 1%positive
             (CitiesSelf___init__ empty_state).2).2).2 =
    heap (CityIterator___init__ false 1%positive
            (CitiesSelf___init__ empty_state).2).2 ∧
  ∃ σ', traverse 1 2%positive
          (CityIterator___init__ false 1%positive
             (CitiesSelf___init__ empty_state).2).2 =
          Some (Raise TypeError, σ') ∧
        heap σ' =
          heap (CityIterator___init__ false 1%positive
                  (CitiesSelf___init__ empty_state).2).2.
Proof.
  split; [reflexivity|]. split; [reflexivity|]. split; [lia|].
  apply (CityIterator_len_error
           (CityIterator___init__ false 1%positive
              (CitiesSelf___init__ empty_state).2).2
           2%positive false 1%positive 0 TypeError 1);
    [reflexivity|reflexivity|lia].
Defined.

(** ** RandomNumbers (part-1.ipynb line 695) *)


Lemma randint_empty_range source a b k :
  b < a → RN.randint source a b k = Raise ValueError.
Proof. intros Hab. unfold RN.randint. by destruct (Z.ltb_spec b a); [|lia]. Qed.

Lemma RN_next_exhausted source o k :
  RN.length o ≤ RN.num_requested o →
  RN.__next__ source (RN.World o k) = (Raise StopIteration, RN.World o k).
Proof.
  intros Hle. unfold RN.__next__. simpl.
  by destruct (Z.geb_spec (RN.num_requested o) (RN.length o)); [|lia].
Qed.




Lemma RN_next_empty_range source o k :
  RN.num_requested o < RN.length o →
  RN.range_max o < RN.range_min o →
  RN.__next__ source (RN.World o k) =
    (Raise ValueError,
     RN.World
       (RN.Make (RN.length o) (RN.range_min o) (RN.range_max o)
          (RN.num_requested o + 1)) k).
Proof.
  intros Hlt Hrange. unfold RN.__next__. simpl.
  destruct (Z.geb_spec (RN.num_requested o) (RN.length o)); [lia|].
  by rewrite randint_empty_range.
Qed.

Lemma RN_nexts_empty_range source (r : nat) :
  ∀ o k,
    RN.range_max o < RN.range_min o →
    Z.to_nat (RN.length o - RN.num_requested o) = r →
    RN.nexts source (S r) (RN.World o k) =
      (replicate r (Raise ValueError) ++ [Raise StopIteration],
       RN.World
         (RN.Make (RN.length o) (RN.range_min o) (RN.range_max o)
            (RN.num_requested o `max` RN.length o))
         k).
Proof.
  induction r as [|r IH]; intros o k Hrange Hr.
  - cbn [RN.nexts]. rewrite RN_next_exhausted by lia. simpl.
    rewrite Z.max_l by lia. by destruct o.
  - change (RN.nexts source (S (S r)) (RN.World o k)) with
      (let '(r0, w') := RN.__next__ source (RN.World o k) in
       let '(rs, w'') := RN.nexts source (S r) w' in (r0 :: rs, w'')).
    rewrite RN_next_empty_range by (done || lia).
    rewrite IH; [|done|simpl; lia]. simpl.
    do 3 f_equal; lia.
Qed.

(** X17. With an empty range ([range_max < range_min]) a [RandomNumbers]
    never hands out a number, and each failed call still uses up a
    request: the calls of [next] raise [ValueError] as many times as were
    left of [length], without drawing, and then [StopIteration]. *)
Theorem RandomNumbers_empty_range source o k :
  RN.range_max o < RN.range_min o →
  (RN.nexts source (S (Z.to_nat (RN.length o - RN.num_requested o)))
     (RN.World o k)).1 =
    replicate (Z.to_nat (RN.length o - RN.num_requested o))
      (Raise ValueError) ++ [Raise StopIteration] ∧
  RN.draws
    (RN.nexts source (S (Z.to_nat (RN.length o - RN.num_requested o)))
       (RN.World o k)).2 = k ∧
  RN.num_requested
    (RN.self
       (RN.nexts source (S (Z.to_nat (RN.length o - RN.num_requested o)))
          (RN.World o k)).2) = RN.num_requested o `max` RN.length o.
Proof.
  intros Hrange. by rewrite (RN_nexts_empty_range source _ o k Hrange eq_refl).
Qed.

Lemma RandomNumbers_empty_range_witness :
  RN.range_max (RN.__init__ 2 5 1) < RN.range_min (RN.__init__ 2 5 1) ∧
  (RN.nexts (λ _, 0) 3 (RN.World (RN.__init__ 2 5 1) 0)).1 =
    [Raise ValueError; Raise ValueError; Raise StopIteration] ∧
  RN.draws (RN.nexts (λ _, 0) 3 (RN.World (RN.__init__ 2 5 1) 0)).2 = 0%nat ∧
  RN.num_requested
    (RN.self (RN.nexts (λ _, 0) 3 (RN.World (RN.__init__ 2 5 1) 0)).2) = 2.
Proof.
  split; [simpl; lia|].
  apply (RandomNumbers_empty_range (λ _, 0) (RN.__init__ 2 5 1) 0).
  simpl; lia.
Defined.
